(** * The amp-animation CSS expression AST (css-expr-ast.js)

    A shallow embedding of [extensions/amp-animation/0.1/css-expr-ast.js]:
    the node classes, the final [resolve] driver, the per-class [isConst] and
    [calc] methods, the numeric unit model and the static
    [CssConcatNode.concat] helper, followed by the properties proved about
    them.

    Conventions of the embedding:
    - a JS number is an IEEE 754 binary64 value, i.e. a primitive [float];
    - a JS string is a [string] (a sequence of 8-bit code units);
    - every object carries the stamp [oid] it received from [new]: two values
      denote the same object exactly when they are equal, stamp included, and
      a copy made by [new] carries a fresh stamp;
    - methods that call into the context or may throw run in the monad [M]
      (state passing, with an exception outcome);
    - [resolve] is not structurally recursive (a variable's value comes from
      the context and is resolved in turn), so it takes fuel. *)

From Stdlib Require Import Floats.PrimFloat Floats.FloatClass.
From Stdlib Require Import Ascii String.
From stdpp Require Import base option list strings gmap.

Local Open Scope string_scope.
Local Open Scope list_scope.

Set Warnings "-register-all".

(** ** JavaScript primitives used by the source *)

(** [String.prototype.toLowerCase], for strings of ASCII characters: the
    letters [A] to [Z] are mapped and every other character is kept. The
    JavaScript method also maps letters outside ASCII (U+212A gives [k]); on
    such a string this function is not the method. The strings the source
    lower-cases are CSS units and function names. *)
Definition toLowerCase_char (c : ascii) : ascii :=
  let n := nat_of_ascii c in
  if (65 <=? n)%nat && (n <=? 90)%nat then ascii_of_nat (n + 32) else c.

Fixpoint toLowerCase (s : string) : string :=
  match s with
  | EmptyString => EmptyString
  | String c s' => String (toLowerCase_char c) (toLowerCase s')
  end.

(** [String.prototype.toUpperCase], for strings of ASCII characters: the
    letters [a] to [z] are mapped and every other character is kept. The
    JavaScript method also maps letters outside ASCII, and may change the
    length (U+00DF gives [SS]); on such a string this function is not the
    method. *)
Definition toUpperCase_char (c : ascii) : ascii :=
  let n := nat_of_ascii c in
  if (97 <=? n)%nat && (n <=? 122)%nat then ascii_of_nat (n - 32) else c.

Fixpoint toUpperCase (s : string) : string :=
  match s with
  | EmptyString => EmptyString
  | String c s' => String (toUpperCase_char c) (toUpperCase s')
  end.

(** The double quote character of the template [`url("${url}")`]. *)
Definition dquote : string := String (ascii_of_nat 34) EmptyString.

(** [Array.prototype.join]. *)
Fixpoint join (sep : string) (l : list string) : string :=
  match l with
  | [] => EmptyString
  | [x] => x
  | x :: rest => x ++ sep ++ join sep rest
  end.

(** [s.indexOf(sub) >= 0]. *)
Fixpoint includes (sub s : string) : bool :=
  String.prefix sub s ||
  match s with
  | EmptyString => false
  | String _ s' => includes sub s'
  end.

(** [const FINAL_URL_RE = /^(data|https)\:/i;] and its [test] method. *)
Definition FINAL_URL_RE_test (url : string) : bool :=
  String.prefix "data:" (toLowerCase url) || String.prefix "https:" (toLowerCase url).

(** [Math.PI], the double nearest to pi. *)
Definition Math_PI : float := 0x1.921fb54442d18p+1%float.

(** [const DEG_TO_RAD = 2 * Math.PI / 360;] *)
Definition DEG_TO_RAD : float := (2 * Math_PI / 360)%float.

(** [const GRAD_TO_RAD = Math.PI / 200;] *)
Definition GRAD_TO_RAD : float := (Math_PI / 200)%float.

Definition is_negative_zero (x : float) : bool :=
  match classify x with NZero => true | _ => false end.

(** [Math.min] on two arguments: NaN if either is NaN, and -0 below +0. *)
Definition Math_min (x y : float) : float :=
  if is_nan x || is_nan y then nan
  else if (x <? y)%float then x
  else if (y <? x)%float then y
  else if is_negative_zero x then x else y.

(** [Math.max] on two arguments: NaN if either is NaN, and +0 above -0. *)
Definition Math_max (x y : float) : float :=
  if is_nan x || is_nan y then nan
  else if (x <? y)%float then y
  else if (y <? x)%float then x
  else if is_negative_zero x then y else x.

(** The global [isFinite] on a number. *)
Definition isFinite (x : float) : bool :=
  match classify x with
  | NaN | PInf | NInf => false
  | _ => true
  end.

(** ** Nodes *)

(** The concrete subclasses of the abstract class [CssNumericNode]; the
    fields are those the base constructor stores ([num_], [units_]); [type_]
    and the fixed units of numbers and percents are determined by the
    subclass. *)
Inductive CssNumericNode : Type :=
| CssNumberNode (oid : nat) (num : float)
| CssPercentNode (oid : nat) (num : float)
| CssLengthNode (oid : nat) (num : float) (units : string)
| CssAngleNode (oid : nat) (num : float) (units : string)
| CssTimeNode (oid : nat) (num : float) (units : string).

(** The subclasses of [CssNode]. [CssTranslateNode] is a [CssFuncNode] whose
    constructor fixes the name and the dimensions (see [new_CssTranslateNode]). *)
Inductive CssNode : Type :=
| CssPassthroughNode (oid : nat) (css_ : string)
| CssConcatNode (oid : nat) (array_ : list CssNode)
| CssUrlNode (oid : nat) (url_ : string)
| Numeric (n : CssNumericNode)
| CssFuncNode (oid : nat) (name_ : string) (args_ : list CssNode)
    (dimensions_ : option (list string))
| CssVarNode (oid : nat) (varName_ : string) (def_ : option CssNode)
| CssCalcNode (oid : nat) (expr_ : CssNode)
| CssCalcSumNode (oid : nat) (left_ right_ : CssNode) (op_ : string)
| CssCalcProductNode (oid : nat) (left_ right_ : CssNode) (op_ : string).

Definition type_ (n : CssNumericNode) : string :=
  match n with
  | CssNumberNode _ _ => "NUM"
  | CssPercentNode _ _ => "PRC"
  | CssLengthNode _ _ _ => "LEN"
  | CssAngleNode _ _ _ => "ANG"
  | CssTimeNode _ _ _ => "TME"
  end.

Definition num_ (n : CssNumericNode) : float :=
  match n with
  | CssNumberNode _ num | CssPercentNode _ num
  | CssLengthNode _ num _ | CssAngleNode _ num _ | CssTimeNode _ num _ => num
  end.

Definition units_ (n : CssNumericNode) : string :=
  match n with
  | CssNumberNode _ _ => EmptyString
  | CssPercentNode _ _ => "%"
  | CssLengthNode _ _ units | CssAngleNode _ _ units | CssTimeNode _ _ units => units
  end.

Definition numeric_oid (n : CssNumericNode) : nat :=
  match n with
  | CssNumberNode oid _ | CssPercentNode oid _
  | CssLengthNode oid _ _ | CssAngleNode oid _ _ | CssTimeNode oid _ _ => oid
  end.

(** The object stamp of a node. *)
Definition oid_of (n : CssNode) : nat :=
  match n with
  | CssPassthroughNode oid _ | CssConcatNode oid _ | CssUrlNode oid _
  | CssFuncNode oid _ _ _ | CssVarNode oid _ _ | CssCalcNode oid _
  | CssCalcSumNode oid _ _ _ | CssCalcProductNode oid _ _ _ => oid
  | Numeric n => numeric_oid n
  end.

(** [x instanceof CssNumberNode] and [x instanceof CssPercentNode]. *)
Definition instanceof_CssNumberNode (n : CssNumericNode) : bool :=
  match n with CssNumberNode _ _ => true | _ => false end.

Definition instanceof_CssPercentNode (n : CssNumericNode) : bool :=
  match n with CssPercentNode _ _ => true | _ => false end.

(** ** The evaluation context *)

Record Size : Type := { width : float; height : float }.

(** The calls a resolution makes on its [CssContext], in the order made. *)
Inductive ContextCall : Type :=
| Call_resolveUrl (url : string)
| Call_getVar (varName : string)
| Call_getCurrentFontSize
| Call_getRootFontSize
| Call_getViewportSize
| Call_getCurrentElementSize
| Call_getDimension
| Call_pushDimension (dim : option string)
| Call_popDimension.

(** The answers of a [CssContext] (an interface in the source: the host
    supplies the implementation). *)
Record CssContext : Type := {
  resolveUrl : string -> string;
  getVar : string -> option CssNode;
  getCurrentFontSize : float;
  getRootFontSize : float;
  getViewportSize : Size;
  getCurrentElementSize : Size
}.

(** What changes while a resolution runs: the context's dimension stack, the
    log of the calls made on the context (latest first), and the stamp the
    next [new] hands out. *)
Record State : Type := {
  dimStack : list (option string);
  calls : list ContextCall;
  nextOid : nat
}.

(** ** The evaluation monad *)

Inductive Outcome (A : Type) : Type :=
| Ret (a : A) (s : State)
| Throw (message : string) (s : State)
| OutOfFuel.

Arguments Ret {A} a s.
Arguments Throw {A} message s.
Arguments OutOfFuel {A}.

Definition M (A : Type) : Type := State -> Outcome A.

Definition ret {A} (a : A) : M A := fun s => Ret a s.

Definition bind {A B} (c : M A) (k : A -> M B) : M B :=
  fun s =>
    match c s with
    | Ret a s' => k a s'
    | Throw message s' => Throw message s'
    | OutOfFuel => OutOfFuel
    end.

(** [throw new Error(message)] *)
Definition throw {A} (message : string) : M A := fun s => Throw message s.

Definition out_of_fuel {A} : M A := fun _ => OutOfFuel.

Notation "x <- c ;; k" := (bind c (fun x => k))
  (at level 100, c at next level, right associativity).
Notation "c ;;; k" := (bind c (fun _ => k))
  (at level 100, right associativity).

Definition log (call : ContextCall) : M unit :=
  fun s => Ret tt {| dimStack := dimStack s; calls := call :: calls s; nextOid := nextOid s |}.

(** The stamp of a [new] object. *)
Definition alloc : M nat :=
  fun s => Ret (nextOid s)
    {| dimStack := dimStack s; calls := calls s; nextOid := S (nextOid s) |}.
(** The state after one [new]. *)
Definition allocated (s : State) : State :=
  {| dimStack := dimStack s; calls := calls s; nextOid := S (nextOid s) |}.

(** *** Context methods *)

Definition context_resolveUrl (context : CssContext) (url : string) : M string :=
  log (Call_resolveUrl url);;; ret (resolveUrl context url).

Definition context_getVar (context : CssContext) (varName : string) : M (option CssNode) :=
  log (Call_getVar varName);;; ret (getVar context varName).

Definition context_getCurrentFontSize (context : CssContext) : M float :=
  log Call_getCurrentFontSize;;; ret (getCurrentFontSize context).

Definition context_getRootFontSize (context : CssContext) : M float :=
  log Call_getRootFontSize;;; ret (getRootFontSize context).

Definition context_getViewportSize (context : CssContext) : M Size :=
  log Call_getViewportSize;;; ret (getViewportSize context).

Definition context_getCurrentElementSize (context : CssContext) : M Size :=
  log Call_getCurrentElementSize;;; ret (getCurrentElementSize context).

(** Modelled from the spec: the context's dimension stack (the source has
    only the interface). [getDimension] answers the top of the stack, [null]
    when it is empty. *)
Definition context_getDimension : M (option string) :=
  log Call_getDimension;;;
  fun s => Ret (match dimStack s with d :: _ => d | [] => None end) s.

(** Modelled from the spec: [pushDimension] pushes on the dimension stack. *)
Definition context_pushDimension (dim : option string) : M unit :=
  log (Call_pushDimension dim);;;
  fun s => Ret tt {| dimStack := dim :: dimStack s; calls := calls s; nextOid := nextOid s |}.

(** Modelled from the spec: [popDimension] pops the dimension stack (an
    empty stack stays empty, as [Array.prototype.pop] leaves it). *)
Definition context_popDimension : M unit :=
  log Call_popDimension;;;
  fun s => Ret tt {| dimStack := tail (dimStack s); calls := calls s; nextOid := nextOid s |}.

(** *** Constructors: [new C(...)] *)

Definition new_CssPassthroughNode (css : string) : M CssNode :=
  oid <- alloc;; ret (CssPassthroughNode oid css).

(** [opt_array || []] *)
Definition new_CssConcatNode (opt_array : option (list CssNode)) : M CssNode :=
  oid <- alloc;; ret (CssConcatNode oid (default [] opt_array)).

Definition new_CssUrlNode (url : string) : M CssNode :=
  oid <- alloc;; ret (CssUrlNode oid url).

Definition new_CssNumberNode (num : float) : M CssNumericNode :=
  oid <- alloc;; ret (CssNumberNode oid num).

Definition new_CssPercentNode (num : float) : M CssNumericNode :=
  oid <- alloc;; ret (CssPercentNode oid num).

Definition new_CssLengthNode (num : float) (units : string) : M CssNumericNode :=
  oid <- alloc;; ret (CssLengthNode oid num (toLowerCase units)).

Definition new_CssAngleNode (num : float) (units : string) : M CssNumericNode :=
  oid <- alloc;; ret (CssAngleNode oid num (toLowerCase units)).

Definition new_CssTimeNode (num : float) (units : string) : M CssNumericNode :=
  oid <- alloc;; ret (CssTimeNode oid num (toLowerCase units)).

(** [opt_dimensions || null] *)
Definition new_CssFuncNode (name : string) (args : list CssNode)
    (opt_dimensions : option (list string)) : M CssNode :=
  oid <- alloc;; ret (CssFuncNode oid (toLowerCase name) args opt_dimensions).

(** [new CssTranslateNode(suffix, args)]. The name goes through
    [toUpperCase] and then [toLowerCase], so it is the constructor's for a
    suffix of ASCII characters (see [is_ascii_string]); the dimensions are
    decided by comparing the suffix as written and do not depend on it. *)
Definition new_CssTranslateNode (suffix : string) (args : list CssNode) : M CssNode :=
  new_CssFuncNode ("translate" ++ toUpperCase suffix) args
    (if String.eqb suffix EmptyString then Some ["w"; "h"]
     else if String.eqb suffix "x" then Some ["w"]
     else if String.eqb suffix "y" then Some ["h"]
     else if String.eqb suffix "z" then Some ["z"]
     else if String.eqb suffix "3d" then Some ["w"; "h"; "z"]
     else None).

Definition new_CssVarNode (varName : string) (opt_def : option CssNode) : M CssNode :=
  oid <- alloc;; ret (CssVarNode oid varName opt_def).

Definition new_CssCalcNode (expr : CssNode) : M CssNode :=
  oid <- alloc;; ret (CssCalcNode oid expr).

Definition new_CssCalcSumNode (left right : CssNode) (op : string) : M CssNode :=
  oid <- alloc;; ret (CssCalcSumNode oid left right op).

Definition new_CssCalcProductNode (left right : CssNode) (op : string) : M CssNode :=
  oid <- alloc;; ret (CssCalcProductNode oid left right op).

(** ** [css()]: the CSS string of a node *)

Section Css.

(** [Number.prototype.toString], as the template strings apply it to [num_]. *)
Variable numToString : float -> string.

Fixpoint css (this : CssNode) : string :=
  match this with
  | CssPassthroughNode _ css_ => css_
  | CssConcatNode _ array_ => join " " (map css array_)
  | CssUrlNode _ url_ =>
      if String.eqb url_ EmptyString then EmptyString
      else "url(" +:+ dquote +:+ url_ +:+ dquote +:+ ")"
  | Numeric n => numToString (num_ n) +:+ units_ n
  | CssFuncNode _ name_ args_ _ => name_ +:+ "(" +:+ join "," (map css args_) +:+ ")"
  | CssVarNode _ varName_ def_ =>
      "var(" +:+ varName_ +:+
        match def_ with Some d => "," +:+ css d | None => EmptyString end +:+ ")"
  | CssCalcNode _ expr_ => "calc(" +:+ css expr_ +:+ ")"
  | CssCalcSumNode _ left_ right_ op_ => css left_ +:+ " " +:+ op_ +:+ " " +:+ css right_
  | CssCalcProductNode _ left_ right_ op_ => css left_ +:+ " " +:+ op_ +:+ " " +:+ css right_
  end.

End Css.

(** ** [isConst()] *)

Fixpoint isConst (this : CssNode) : bool :=
  match this with
  | CssPassthroughNode _ _ => true
  | CssConcatNode _ array_ => fold_left (fun acc node => acc && isConst node) array_ true
  | CssUrlNode _ url_ => String.eqb url_ EmptyString || FINAL_URL_RE_test url_
  | Numeric _ => true
  | CssFuncNode _ _ args_ _ => fold_left (fun acc node => acc && isConst node) args_ true
  | CssVarNode _ _ _ => false
  | CssCalcNode _ _ => false
  | CssCalcSumNode _ _ _ _ => false
  | CssCalcProductNode _ _ _ _ => false
  end.

(** ** The numeric unit model *)

(** [function unknownUnits(units)]: the message of the error it builds. *)
Definition unknownUnits (units : string) : string := "unknown units: " +:+ units.

Definition createSameUnits (this : CssNumericNode) (num : float) : M CssNumericNode :=
  match this with
  | CssNumberNode _ _ => new_CssNumberNode num
  | CssPercentNode _ _ => new_CssPercentNode num
  | CssLengthNode _ _ units => new_CssLengthNode num units
  | CssAngleNode _ _ units => new_CssAngleNode num units
  | CssTimeNode _ _ units => new_CssTimeNode num units
  end.

Definition CssLengthNode_norm (context : CssContext) (this : CssNumericNode) : M CssNumericNode :=
  if String.eqb (units_ this) "px" then ret this
  else if String.eqb (units_ this) "em" || String.eqb (units_ this) "rem" then
    fontSize <- (if String.eqb (units_ this) "em"
                 then context_getCurrentFontSize context
                 else context_getRootFontSize context);;
    new_CssLengthNode (num_ this * fontSize) "px"
  else if String.eqb (units_ this) "vw" || String.eqb (units_ this) "vh" ||
          String.eqb (units_ this) "vmin" || String.eqb (units_ this) "vmax" then
    vp <- context_getViewportSize context;;
    let vw := (width vp * num_ this / 100)%float in
    let vh := (height vp * num_ this / 100)%float in
    let num :=
      if String.eqb (units_ this) "vw" then vw
      else if String.eqb (units_ this) "vh" then vh
      else if String.eqb (units_ this) "vmin" then Math_min vw vh
      else if String.eqb (units_ this) "vmax" then Math_max vw vh
      else 0%float in
    new_CssLengthNode num "px"
  else throw (unknownUnits (units_ this)).

Definition CssAngleNode_norm (this : CssNumericNode) : M CssNumericNode :=
  if String.eqb (units_ this) "rad" then ret this
  else if String.eqb (units_ this) "deg" then new_CssAngleNode (num_ this * DEG_TO_RAD) "rad"
  else if String.eqb (units_ this) "grad" then new_CssAngleNode (num_ this * GRAD_TO_RAD) "rad"
  else throw (unknownUnits (units_ this)).

Definition CssTimeNode_norm (this : CssNumericNode) : M CssNumericNode :=
  if String.eqb (units_ this) "ms" then ret this
  else if String.eqb (units_ this) "s" then new_CssTimeNode (num_ this * 1000) "ms"
  else throw (unknownUnits (units_ this)).

(** [norm(context)], dispatched on the class; numbers and percents inherit
    the base method, which returns [this]. *)
Definition norm (context : CssContext) (this : CssNumericNode) : M CssNumericNode :=
  match this with
  | CssNumberNode _ _ | CssPercentNode _ _ => ret this
  | CssLengthNode _ _ _ => CssLengthNode_norm context this
  | CssAngleNode _ _ _ => CssAngleNode_norm this
  | CssTimeNode _ _ _ => CssTimeNode_norm this
  end.

(** [dim == 'w'] for a [?string]. *)
Definition dim_is (dim : option string) (s : string) : bool :=
  match dim with Some d => String.eqb d s | None => false end.

Definition CssLengthNode_calcPercent (context : CssContext) (percent : float)
    : M CssNumericNode :=
  dim <- context_getDimension;;
  size <- context_getCurrentElementSize context;;
  let side :=
    if dim_is dim "w" then width size
    else if dim_is dim "h" then height size
    else 0%float in
  new_CssLengthNode (side * percent / 100) "px".

(** [calcPercent(percent, context)], dispatched on the class; only lengths
    override the base method, which throws. *)
Definition calcPercent (context : CssContext) (this : CssNumericNode) (percent : float)
    : M CssNumericNode :=
  match this with
  | CssLengthNode _ _ _ => CssLengthNode_calcPercent context percent
  | _ => throw ("cannot calculate percent for " +:+ type_ this)
  end.

(** ** [calc(context)], class by class *)

Section Calc.

(** [node.resolve(context)], the final method of [CssNode] defined below. *)
Variable resolve : CssNode -> M (option CssNode).
Variable context : CssContext.

(** The loop of [CssConcatNode.calc] over the elements still to resolve. *)
Fixpoint CssConcatNode_calc_loop (rest resolvedArray : list CssNode)
    : M (option (list CssNode)) :=
  match rest with
  | [] => ret (Some resolvedArray)
  | node :: rest' =>
      resolved <- resolve node;;
      match resolved with
      | Some r => CssConcatNode_calc_loop rest' (resolvedArray ++ [r])
      | None => ret None
      end
  end.

Definition CssConcatNode_calc (array_ : list CssNode) : M (option CssNode) :=
  r <- CssConcatNode_calc_loop array_ [];;
  match r with
  | Some resolvedArray => n <- new_CssConcatNode (Some resolvedArray);; ret (Some n)
  | None => ret None
  end.

Definition CssUrlNode_calc (url_ : string) : M (option CssNode) :=
  url <- context_resolveUrl context url_;;
  n <- new_CssPassthroughNode ("url(" +:+ dquote +:+ url +:+ dquote +:+ ")");;
  ret (Some n).

(** The loop of [CssFuncNode.calc]: [rest] holds [args_[i]], [args_[i+1]], ... *)
Fixpoint CssFuncNode_calc_loop (dimensions_ : option (list string))
    (rest : list CssNode) (i : nat) (resolvedArgs : list CssNode)
    : M (option (list CssNode)) :=
  match rest with
  | [] => ret (Some resolvedArgs)
  | node :: rest' =>
      resolved <-
        match dimensions_ with
        | Some dims =>
            match dims !! i with
            | Some dim =>
                context_pushDimension (Some dim);;;
                resolved <- resolve node;;
                context_popDimension;;;
                ret resolved
            | None => resolve node
            end
        | None => resolve node
        end;;
      match resolved with
      | Some r => CssFuncNode_calc_loop dimensions_ rest' (S i) (resolvedArgs ++ [r])
      | None => ret None
      end
  end.

Definition CssFuncNode_calc (name_ : string) (args_ : list CssNode)
    (dimensions_ : option (list string)) : M (option CssNode) :=
  r <- CssFuncNode_calc_loop dimensions_ args_ 0 [];;
  match r with
  | Some resolvedArgs => n <- new_CssFuncNode name_ resolvedArgs None;; ret (Some n)
  | None => ret None
  end.

Definition CssVarNode_calc (varName_ : string) (def_ : option CssNode) : M (option CssNode) :=
  varNode <- context_getVar context varName_;;
  match varNode with
  | Some v => resolve v
  | None =>
      match def_ with
      | Some d => resolve d
      | None => ret None
      end
  end.

Definition CssCalcNode_calc (expr_ : CssNode) : M (option CssNode) :=
  resolve expr_.

Definition CssCalcSumNode_calc (left_ right_ : CssNode) (op_ : string) : M (option CssNode) :=
  left0 <- resolve left_;;
  right0 <- resolve right_;;
  match left0, right0 with
  | None, _ | _, None => ret None
  | Some (Numeric left1), Some (Numeric right1) =>
      lr <- (if negb (String.eqb (type_ left1) (type_ right1)) then
               if instanceof_CssPercentNode left1 then
                 left2 <- calcPercent context right1 (num_ left1);; ret (left2, right1)
               else if instanceof_CssPercentNode right1 then
                 right2 <- calcPercent context left1 (num_ right1);; ret (left1, right2)
               else throw "left and right must be the same type"
             else ret (left1, right1));;
      lr <- (if negb (String.eqb (units_ (fst lr)) (units_ (snd lr))) then
               left3 <- norm context (fst lr);;
               right3 <- norm context (snd lr);;
               ret (left3, right3)
             else ret lr);;
      let sign := if String.eqb op_ "+" then 1%float else (-1)%float in
      n <- createSameUnits (fst lr) (num_ (fst lr) + sign * num_ (snd lr));;
      ret (Some (Numeric n))
  | Some _, Some _ => throw "left and right must be both numerical"
  end.

Definition CssCalcProductNode_calc (left_ right_ : CssNode) (op_ : string)
    : M (option CssNode) :=
  left0 <- resolve left_;;
  right0 <- resolve right_;;
  match left0, right0 with
  | None, _ | _, None => ret None
  | Some (Numeric left1), Some (Numeric right1) =>
      bm <- (if String.eqb op_ "*" then
               if instanceof_CssNumberNode left1 then ret (right1, num_ left1)
               else if negb (instanceof_CssNumberNode right1) then
                 throw "one of sides in multiplication must be a number"
               else ret (left1, num_ right1)
             else
               if negb (instanceof_CssNumberNode right1) then
                 throw "denominator must be a number"
               else ret (left1, (1 / num_ right1)%float));;
      let base := fst bm in
      let multi := snd bm in
      let num := (num_ base * multi)%float in
      if negb (isFinite num) then ret None
      else n <- createSameUnits base num;; ret (Some (Numeric n))
  | Some _, Some _ => throw "left and right must be both numerical"
  end.

(** [this.calc(context)] by dynamic dispatch; passthrough and numeric nodes
    inherit the base method, which returns [this]. *)
Definition calc (this : CssNode) : M (option CssNode) :=
  match this with
  | CssPassthroughNode _ _ => ret (Some this)
  | CssConcatNode _ array_ => CssConcatNode_calc array_
  | CssUrlNode _ url_ => CssUrlNode_calc url_
  | Numeric _ => ret (Some this)
  | CssFuncNode _ name_ args_ dimensions_ => CssFuncNode_calc name_ args_ dimensions_
  | CssVarNode _ varName_ def_ => CssVarNode_calc varName_ def_
  | CssCalcNode _ expr_ => CssCalcNode_calc expr_
  | CssCalcSumNode _ left_ right_ op_ => CssCalcSumNode_calc left_ right_ op_
  | CssCalcProductNode _ left_ right_ op_ => CssCalcProductNode_calc left_ right_ op_
  end.

End Calc.

(** ** [resolve(context)], the final method of [CssNode] *)

Fixpoint resolve (fuel : nat) (context : CssContext) (this : CssNode)
    : M (option CssNode) :=
  match fuel with
  | O => out_of_fuel
  | S fuel' =>
      if isConst this then ret (Some this)
      else calc (resolve fuel' context) context this
  end.

(** ** The static [CssConcatNode.concat] on the object store

    [concat] is the one place of the file that mutates an existing node, so
    it is modelled on a store of objects addressed by references. A
    [CssConcatNode] object holds a reference to its [array_], itself an
    [Array] object of the store: the constructor keeps the array it is
    given, [push] grows that array in place and [Array.prototype.concat]
    builds a new one. Nodes of the other classes are opaque here: [concat]
    reads none of their fields. *)

Abbreviation ref := nat.

Inductive Object : Type :=
| ArrayObject (elements : list ref)
| ConcatNodeObject (array_ : ref)
| OtherNodeObject.

(** The store: [h !! r] is the object at reference [r]; [new] appends. *)
Abbreviation Store := (list Object).

Definition store_new (h : Store) (o : Object) : Store * ref := (h ++ [o], length h).

(** [x instanceof CssConcatNode] *)
Definition instanceof_CssConcatNode (o : Object) : bool :=
  match o with ConcatNodeObject _ => true | _ => false end.

(** [x.array_] of the node at [x]. *)
Definition get_array_ (h : Store) (x : ref) : option ref :=
  match h !! x with
  | Some (ConcatNodeObject array_) => Some array_
  | _ => None
  end.

(** The elements of the array at [r]. *)
Definition get_elements (h : Store) (r : ref) : option (list ref) :=
  match h !! r with
  | Some (ArrayObject elements) => Some elements
  | _ => None
  end.

(** The children of the [CssConcatNode] at [x]: the elements of its [array_]. *)
Definition children (h : Store) (x : ref) : option (list ref) :=
  array_ ← get_array_ h x; get_elements h array_.

(** [static concat(nodeOrSet, otherNodeOrSet)]. [None] stands for a store in
    which a reference the function follows is dangling or ill-typed. *)
Definition concat (h : Store) (nodeOrSet otherNodeOrSet : ref) : option (Store * ref) :=
  o ← h !! nodeOrSet;
  let '(h1, set) :=
    if instanceof_CssConcatNode o then (h, nodeOrSet)
    else
      let '(h', array) := store_new h (ArrayObject [nodeOrSet]) in
      store_new h' (ConcatNodeObject array) in
  other ← h1 !! otherNodeOrSet;
  if instanceof_CssConcatNode other then
    (* set.array_ = set.array_.concat(otherNodeOrSet.array_) *)
    set_array ← get_array_ h1 set;
    set_elements ← get_elements h1 set_array;
    other_array ← get_array_ h1 otherNodeOrSet;
    other_elements ← get_elements h1 other_array;
    let '(h2, array) := store_new h1 (ArrayObject (set_elements ++ other_elements)) in
    Some (<[set := ConcatNodeObject array]> h2, set)
  else
    (* set.array_.push(otherNodeOrSet) *)
    set_array ← get_array_ h1 set;
    set_elements ← get_elements h1 set_array;
    Some (<[set_array := ArrayObject (set_elements ++ [otherNodeOrSet])]> h1, set).

(** The references of [h] at which a [CssConcatNode] lives. *)
Definition is_CssConcatNode_at (h : Store) (x : ref) : bool :=
  match h !! x with Some o => instanceof_CssConcatNode o | None => false end.

(** ** Notions used to state the properties *)

(** The numbers of [pushDimension] and [popDimension] calls in a log. *)
Definition is_pushDimension (c : ContextCall) : bool :=
  match c with Call_pushDimension _ => true | _ => false end.

Definition is_popDimension (c : ContextCall) : bool :=
  match c with Call_popDimension => true | _ => false end.

Definition count_pushDimension (l : list ContextCall) : nat :=
  length (List.filter is_pushDimension l).

Definition count_popDimension (l : list ContextCall) : nat :=
  length (List.filter is_popDimension l).

(** A [CssCalcNode] occurs in the tree. *)
Fixpoint contains_CssCalcNode (this : CssNode) : bool :=
  match this with
  | CssCalcNode _ _ => true
  | CssConcatNode _ array_ => existsb contains_CssCalcNode array_
  | CssFuncNode _ _ args_ _ => existsb contains_CssCalcNode args_
  | CssVarNode _ _ def_ =>
      match def_ with Some d => contains_CssCalcNode d | None => false end
  | CssCalcSumNode _ left_ right_ _ | CssCalcProductNode _ left_ right_ _ =>
      contains_CssCalcNode left_ || contains_CssCalcNode right_
  | CssPassthroughNode _ _ | CssUrlNode _ _ | Numeric _ => false
  end.

(** The units each category of [norm] converts, and its canonical unit. *)
Definition supported_units (n : CssNumericNode) : bool :=
  match n with
  | CssLengthNode _ _ units =>
      bool_decide (units ∈ ["px"; "em"; "rem"; "vw"; "vh"; "vmin"; "vmax"])
  | CssAngleNode _ _ units => bool_decide (units ∈ ["rad"; "deg"; "grad"])
  | CssTimeNode _ _ units => bool_decide (units ∈ ["ms"; "s"])
  | CssNumberNode _ _ | CssPercentNode _ _ => false
  end.

Definition canonical_units (n : CssNumericNode) : string :=
  match n with
  | CssLengthNode _ _ _ => "px"
  | CssAngleNode _ _ _ => "rad"
  | CssTimeNode _ _ _ => "ms"
  | CssNumberNode _ _ | CssPercentNode _ _ => units_ n
  end.

(** The operands [CssCalcProductNode.calc] settles on for two numeric sides:
    the node that gives the result its class and units ([base]) and the
    factor ([multi]); [None] where the method throws. *)
Definition product_operands (op_ : string) (left1 right1 : CssNumericNode)
    : option (CssNumericNode * float) :=
  if String.eqb op_ "*" then
    if instanceof_CssNumberNode left1 then Some (right1, num_ left1)
    else if instanceof_CssNumberNode right1 then Some (left1, num_ right1)
    else None
  else
    if instanceof_CssNumberNode right1 then Some (left1, (1 / num_ right1)%float)
    else None.

(** The calls made between two states leave the dimension stack balanced:
    the stack is as it was, and among the calls made there are as many
    [pushDimension] as [popDimension]. *)
Definition balanced (s s' : State) : Prop :=
  dimStack s' = dimStack s /\
  exists made : list ContextCall,
    calls s' = made ++ calls s /\
    count_pushDimension made = count_popDimension made.

(** A computation that, whenever it returns, has kept the dimension stack
    balanced and returns a value satisfying [Q]. *)
Definition ensures {A : Type} (c : M A) (Q : A -> Prop) : Prop :=
  forall (s : State) (a : A) (s' : State), c s = Ret a s' -> balanced s s' /\ Q a.

(** The result of a resolution is [null] or a constant node. *)
Definition null_or_const (r : option CssNode) : Prop :=
  match r with
  | Some out => isConst out = true
  | None => True
  end.

(** [c'] agrees with [c] wherever [c] does not run out of fuel. *)
Definition extends {A : Type} (c c' : M A) : Prop :=
  forall s : State, c s <> OutOfFuel -> c' s = c s.

(** ** Further notions used to state properties *)

(** What a computation that threw leaves behind: the dimension stack is the
    old one under the tags pushed and not popped, and among the calls made
    the pushes exceed the pops by the number of those tags. *)
Definition pending (s s' : State) : Prop :=
  exists (tags : list (option string)) (made : list ContextCall),
    dimStack s' = tags ++ dimStack s /\
    calls s' = made ++ calls s /\
    count_pushDimension made = count_popDimension made + length tags.

Definition throws_pending {A : Type} (c : M A) : Prop :=
  forall (s : State) (message : string) (s' : State),
    c s = Throw message s' -> pending s s'.

(** The node itself has to be calculated: [isConst()] is false whatever its
    children are. *)
Definition is_variable_component (this : CssNode) : bool :=
  match this with
  | CssVarNode _ _ _ | CssCalcNode _ _
  | CssCalcSumNode _ _ _ _ | CssCalcProductNode _ _ _ _ => true
  | CssUrlNode _ url_ => negb (String.eqb url_ EmptyString || FINAL_URL_RE_test url_)
  | CssPassthroughNode _ _ | CssConcatNode _ _ | Numeric _ | CssFuncNode _ _ _ _ => false
  end.

(** Some node of the tree, the root included, satisfies [p]. *)
Fixpoint exists_subnode (p : CssNode -> bool) (this : CssNode) : bool :=
  p this ||
  match this with
  | CssConcatNode _ array_ => existsb (exists_subnode p) array_
  | CssFuncNode _ _ args_ _ => existsb (exists_subnode p) args_
  | CssVarNode _ _ def_ =>
      match def_ with Some d => exists_subnode p d | None => false end
  | CssCalcNode _ expr_ => exists_subnode p expr_
  | CssCalcSumNode _ left_ right_ _ | CssCalcProductNode _ left_ right_ _ =>
      exists_subnode p left_ || exists_subnode p right_
  | CssPassthroughNode _ _ | CssUrlNode _ _ | Numeric _ => false
  end.

(** [const sign = this.op_ == '+' ? 1 : -1;] *)
Definition sum_sign (op_ : string) : float :=
  if String.eqb op_ "+" then 1%float else (-1)%float.

(** The side of the current element a percent is taken of, by the dimension
    on top of the stack: the [side] of [CssLengthNode.calcPercent]. *)
Definition percent_side (context : CssContext) (s : State) : float :=
  let dim := match dimStack s with d :: _ => d | [] => None end in
  if dim_is dim "w" then width (getCurrentElementSize context)
  else if dim_is dim "h" then height (getCurrentElementSize context)
  else 0%float.

(** The state after [calcPercent] of a length: the two context calls and
    one [new]. *)
Definition after_calcPercent (s : State) : State :=
  {| dimStack := dimStack s;
     calls := Call_getCurrentElementSize :: Call_getDimension :: calls s;
     nextOid := S (nextOid s) |}.

(** [x instanceof CssNumericNode] *)
Definition instanceof_CssNumericNode (this : CssNode) : bool :=
  match this with Numeric _ => true | _ => false end.

(** A child and what it resolved to: a constant node, the child itself when
    the child was constant. *)
Definition resolved_from (child r : CssNode) : Prop :=
  isConst r = true /\ (isConst child = true -> r = child).

(** [new CssConcatNode(opt_array)] on the object store: the node keeps the
    array it is given, and gets a new empty array when given none. *)
Definition store_new_CssConcatNode (h : Store) (opt_array : option ref) : Store * ref :=
  match opt_array with
  | Some array => store_new h (ConcatNodeObject array)
  | None =>
      let '(h', array) := store_new h (ArrayObject []) in
      store_new h' (ConcatNodeObject array)
  end.

(** A call the context may receive from a resolution: any call, except
    [resolveUrl] of a url that is empty or final. *)
Definition expected_call (call : ContextCall) : Prop :=
  match call with
  | Call_resolveUrl url => String.eqb url EmptyString || FINAL_URL_RE_test url = false
  | _ => True
  end.

(** The calls made between two states are all expected ones. *)
Definition only_expected_calls (s s' : State) : Prop :=
  exists made : list ContextCall, calls s' = made ++ calls s /\ Forall expected_call made.

(** A computation that makes expected calls only, whether it returns or
    throws. *)
Definition calls_as_expected {A : Type} (c : M A) : Prop :=
  forall s : State,
    match c s with
    | Ret _ s' | Throw _ s' => only_expected_calls s s'
    | OutOfFuel => True
    end.

(** The string is in lower case already. *)
Definition is_lower_case (s : string) : bool := String.eqb (toLowerCase s) s.

(** The units and the function names of the tree are all in lower case, as
    the constructors store them. *)
Fixpoint lower_cased (this : CssNode) : bool :=
  match this with
  | Numeric n => is_lower_case (units_ n)
  | CssFuncNode _ name_ args_ _ => is_lower_case name_ && forallb lower_cased args_
  | CssConcatNode _ array_ => forallb lower_cased array_
  | CssVarNode _ _ def_ => match def_ with Some d => lower_cased d | None => true end
  | CssCalcNode _ expr_ => lower_cased expr_
  | CssCalcSumNode _ left_ right_ _ | CssCalcProductNode _ left_ right_ _ =>
      lower_cased left_ && lower_cased right_
  | CssPassthroughNode _ _ | CssUrlNode _ _ => true
  end.

Definition null_or_lower_cased (r : option CssNode) : Prop :=
  match r with
  | Some out => lower_cased out = true
  | None => True
  end.

(** Every character of the string is an ASCII character (below 128): the
    strings on which [toLowerCase] and [toUpperCase] are the JavaScript
    methods. *)
Definition is_ascii_string (s : string) : bool :=
  forallb (fun c => (nat_of_ascii c <? 128)%nat) (list_ascii_of_string s).

(** ** A context and a state to run the examples in *)

Definition example_context : CssContext :=
  {| resolveUrl := fun url => "https://cdn.example/" +:+ url;
     getVar := fun _ => None;
     getCurrentFontSize := 16;
     getRootFontSize := 10;
     getViewportSize := {| width := 1000; height := 500 |};
     getCurrentElementSize := {| width := 200; height := 100 |} |}.

Definition example_state : State :=
  {| dimStack := [Some "w"]; calls := []; nextOid := 100 |}.

(** A store with the array [[2]] at 0, a [CssConcatNode] over it at 1 and
    two nodes of other classes at 2 and 3. *)
Definition example_store : Store :=
  [ArrayObject [2]; ConcatNodeObject 0; OtherNodeObject; OtherNodeObject].

(** A context in which [--angle] is [45deg]. *)
Definition example_context_with_var : CssContext :=
  {| resolveUrl := fun url => "https://cdn.example/" +:+ url;
     getVar := fun varName =>
       if String.eqb varName "--angle" then Some (Numeric (CssAngleNode 50 45 "deg"))
       else None;
     getCurrentFontSize := 16;
     getRootFontSize := 10;
     getViewportSize := {| width := 1000; height := 500 |};
     getCurrentElementSize := {| width := 200; height := 100 |} |}.

(** A store with two [CssConcatNode]s: the node at 1 over the array [[4]]
    at 0 and the node at 3 over the array [[5]] at 2; 4 and 5 are nodes of
    other classes. *)
Definition example_store_two_sets : Store :=
  [ArrayObject [4]; ConcatNodeObject 0; ArrayObject [5]; ConcatNodeObject 2;
   OtherNodeObject; OtherNodeObject].

(** * Properties *)

(** ** The monad *)

Lemma bind_Ret_inv {A B} (c : M A) (k : A -> M B) (s s2 : State) (b : B) :
  (x <- c;; k x) s = Ret b s2 ->
  exists a s1, c s = Ret a s1 /\ k a s1 = Ret b s2.
Proof.
  unfold bind. destruct (c s) as [a s1 | |]; [eauto | discriminate | discriminate].
Qed.

Lemma bind_Ret {A B} (c : M A) (k : A -> M B) (s s1 : State) (a : A) :
  c s = Ret a s1 -> (x <- c;; k x) s = k a s1.
Proof. unfold bind. intros ->. reflexivity. Qed.

Lemma bind_Throw {A B} (c : M A) (k : A -> M B) (s s1 : State) (message : string) :
  c s = Throw message s1 -> (x <- c;; k x) s = Throw message s1.
Proof. unfold bind. intros ->. reflexivity. Qed.

(** Lower-casing is idempotent, so the units a constructor stores are a
    fixed point of the lower-casing [createSameUnits] applies again. *)
Lemma toLowerCase_char_idempotent (c : ascii) :
  toLowerCase_char (toLowerCase_char c) = toLowerCase_char c.
Proof.
  destruct c as [[] [] [] [] [] [] [] []]; reflexivity.
Qed.

Lemma toLowerCase_idempotent (s : string) : toLowerCase (toLowerCase s) = toLowerCase s.
Proof.
  induction s as [| c s IH]; simpl; [reflexivity |].
  rewrite toLowerCase_char_idempotent, IH. reflexivity.
Qed.

(** [isConst] of a concatenation or a function call: all children are
    constant. *)
Lemma isConst_fold_left (l : list CssNode) (b : bool) :
  fold_left (fun acc node => acc && isConst node) l b = b && forallb isConst l.
Proof.
  revert b. induction l as [| n l IH]; intros b; simpl.
  - rewrite andb_true_r. reflexivity.
  - rewrite IH, andb_assoc. reflexivity.
Qed.

Lemma isConst_CssConcatNode (oid : nat) (array_ : list CssNode) :
  isConst (CssConcatNode oid array_) = forallb isConst array_.
Proof. simpl. apply isConst_fold_left. Qed.

Lemma isConst_CssFuncNode (oid : nat) (name_ : string) (args_ : list CssNode)
    (dimensions_ : option (list string)) :
  isConst (CssFuncNode oid name_ args_ dimensions_) = forallb isConst args_.
Proof. simpl. apply isConst_fold_left. Qed.

(** ** Percent resolution in a sum *)

(** C1. With an element of width 200 and height 100 and ['w'] on top of the
    dimension stack, the percent side of [50px + 50%] is replaced by what
    [calcPercent] of the length side answers, a fresh [100px], and the sum
    resolves to a fresh length [150px]; the context was asked for the
    dimension and for the element size, once each. *)
Theorem CssCalcSumNode_percent_resolution (context : CssContext) (s : State)
    (rest : list (option string)) (o l p : nat) (fuel : nat) :
  getCurrentElementSize context = {| width := 200; height := 100 |} ->
  dimStack s = Some "w" :: rest ->
  calcPercent context (CssLengthNode l 50 "px") 50 s
    = Ret (CssLengthNode (nextOid s) 100 "px")
        {| dimStack := dimStack s;
           calls := Call_getCurrentElementSize :: Call_getDimension :: calls s;
           nextOid := S (nextOid s) |}
  /\
  resolve (S (S fuel)) context
      (CssCalcSumNode o (Numeric (CssLengthNode l 50 "px")) (Numeric (CssPercentNode p 50)) "+") s
    = Ret (Some (Numeric (CssLengthNode (S (nextOid s)) 150 "px")))
        {| dimStack := dimStack s;
           calls := Call_getCurrentElementSize :: Call_getDimension :: calls s;
           nextOid := S (S (nextOid s)) |}.
Proof.
  intros Hsize Hdim. split.
  - unfold calcPercent, CssLengthNode_calcPercent, context_getDimension,
      context_getCurrentElementSize, bind, log, ret; simpl.
    rewrite Hsize, Hdim. reflexivity.
  - cbn -[PrimFloat.mul PrimFloat.add PrimFloat.div]. unfold bind; cbn.
    rewrite Hsize, Hdim. reflexivity.
Qed.

Lemma CssCalcSumNode_percent_resolution_witness :
  resolve 2 example_context
      (CssCalcSumNode 1 (Numeric (CssLengthNode 2 50 "px")) (Numeric (CssPercentNode 3 50)) "+")
      example_state
    = Ret (Some (Numeric (CssLengthNode 101 150 "px")))
        {| dimStack := [Some "w"];
           calls := [Call_getCurrentElementSize; Call_getDimension];
           nextOid := 102 |}.
Proof.
  exact (proj2 (CssCalcSumNode_percent_resolution example_context example_state
                  [] 1 2 3 0 eq_refl eq_refl)).
Defined.

(** ** The resolution driver *)

(** C2. [resolve] is one method for every class: on a node whose [isConst()]
    is true it returns that very object (the same stamp, nothing allocated,
    the context not called), whatever the context; on any node it is [this]
    when constant and [calc(context)] otherwise. *)
Theorem resolve_const_identity (fuel : nat) (context : CssContext) (this : CssNode)
    (s : State) :
  (isConst this = true -> resolve (S fuel) context this s = Ret (Some this) s) /\
  resolve (S fuel) context this s =
    (if isConst this then Ret (Some this) s
     else calc (resolve fuel context) context this s).
Proof.
  split.
  - intros Hconst. simpl. rewrite Hconst. reflexivity.
  - simpl. destruct (isConst this); reflexivity.
Qed.

Lemma resolve_const_identity_witness :
  isConst (CssFuncNode 1 "translatex" [Numeric (CssLengthNode 2 10 "px")] (Some ["w"])) = true /\
  resolve 1 example_context
      (CssFuncNode 1 "translatex" [Numeric (CssLengthNode 2 10 "px")] (Some ["w"]))
      example_state
    = Ret (Some (CssFuncNode 1 "translatex" [Numeric (CssLengthNode 2 10 "px")] (Some ["w"])))
        example_state.
Proof.
  split; [reflexivity |].
  exact (proj1 (resolve_const_identity 0 example_context
                  (CssFuncNode 1 "translatex" [Numeric (CssLengthNode 2 10 "px")] (Some ["w"]))
                  example_state) eq_refl).
Defined.


(** ** Products *)

(** What [createSameUnits] builds: a fresh node of the class of [this], with
    the units of [this] lower-cased once more by the constructor. *)
Lemma createSameUnits_Ret (this : CssNumericNode) (num : float) (s : State) :
  exists n,
    createSameUnits this num s = Ret n (allocated s) /\
    type_ n = type_ this /\
    units_ n = toLowerCase (units_ this) /\
    num_ n = num /\
    numeric_oid n = nextOid s.
Proof.
  destruct this; eexists; (split; [reflexivity |]); simpl; auto.
Qed.

(** [CssCalcProductNode.calc] once both sides have resolved to numeric nodes. *)
Lemma CssCalcProductNode_calc_numeric (resolve' : CssNode -> M (option CssNode))
    (left_ right_ : CssNode) (op_ : string)
    (s s1 s2 : State) (left1 right1 : CssNumericNode) :
  resolve' left_ s = Ret (Some (Numeric left1)) s1 ->
  resolve' right_ s1 = Ret (Some (Numeric right1)) s2 ->
  CssCalcProductNode_calc resolve' left_ right_ op_ s =
    match product_operands op_ left1 right1 with
    | Some (base, multi) =>
        if isFinite (num_ base * multi) then
          (n <- createSameUnits base (num_ base * multi);; ret (Some (Numeric n))) s2
        else Ret None s2
    | None =>
        Throw (if String.eqb op_ "*"
               then "one of sides in multiplication must be a number"
               else "denominator must be a number") s2
    end.
Proof.
  intros Hl Hr. unfold CssCalcProductNode_calc, product_operands.
  rewrite (bind_Ret _ _ _ _ _ Hl), (bind_Ret _ _ _ _ _ Hr).
  destruct (String.eqb op_ "*");
    destruct (instanceof_CssNumberNode left1), (instanceof_CssNumberNode right1);
    unfold bind, ret, throw; simpl; try reflexivity;
    match goal with |- context [isFinite ?x] => destruct (isFinite x) end; reflexivity.
Qed.

Lemma resolve_CssCalcProductNode (fuel : nat) (context : CssContext) (oid : nat)
    (left_ right_ : CssNode) (op_ : string) :
  resolve (S fuel) context (CssCalcProductNode oid left_ right_ op_) =
  CssCalcProductNode_calc (resolve fuel context) left_ right_ op_.
Proof. reflexivity. Qed.

(** C3, as the code has it. For a product with op ['*'] whose sides resolve
    to numeric nodes: if neither side is a [CssNumberNode] the method throws;
    if the left side is one, the right side gives the result its class and
    units (also when the right side is a number too); otherwise, if the right
    side is one, the left side does. The result is a fresh node holding the
    product of the two magnitudes when that product is finite, and [null],
    with nothing built and nothing thrown, when it is not. *)
Theorem CssCalcProductNode_multiplication (fuel : nat) (context : CssContext) (oid : nat)
    (left_ right_ : CssNode) (s s1 s2 : State) (left1 right1 : CssNumericNode) :
  resolve fuel context left_ s = Ret (Some (Numeric left1)) s1 ->
  resolve fuel context right_ s1 = Ret (Some (Numeric right1)) s2 ->
  (instanceof_CssNumberNode left1 = false -> instanceof_CssNumberNode right1 = false ->
   resolve (S fuel) context (CssCalcProductNode oid left_ right_ "*") s
     = Throw "one of sides in multiplication must be a number" s2) /\
  (instanceof_CssNumberNode left1 = true ->
   isFinite (num_ right1 * num_ left1) = true ->
   exists n,
     resolve (S fuel) context (CssCalcProductNode oid left_ right_ "*") s
       = Ret (Some (Numeric n)) (allocated s2) /\
     type_ n = type_ right1 /\ units_ n = toLowerCase (units_ right1) /\
     num_ n = (num_ right1 * num_ left1)%float /\ numeric_oid n = nextOid s2) /\
  (instanceof_CssNumberNode left1 = false -> instanceof_CssNumberNode right1 = true ->
   isFinite (num_ left1 * num_ right1) = true ->
   exists n,
     resolve (S fuel) context (CssCalcProductNode oid left_ right_ "*") s
       = Ret (Some (Numeric n)) (allocated s2) /\
     type_ n = type_ left1 /\ units_ n = toLowerCase (units_ left1) /\
     num_ n = (num_ left1 * num_ right1)%float /\ numeric_oid n = nextOid s2) /\
  (instanceof_CssNumberNode left1 = true ->
   isFinite (num_ right1 * num_ left1) = false ->
   resolve (S fuel) context (CssCalcProductNode oid left_ right_ "*") s = Ret None s2) /\
  (instanceof_CssNumberNode left1 = false -> instanceof_CssNumberNode right1 = true ->
   isFinite (num_ left1 * num_ right1) = false ->
   resolve (S fuel) context (CssCalcProductNode oid left_ right_ "*") s = Ret None s2).
Proof.
  intros Hl Hr. rewrite resolve_CssCalcProductNode.
  rewrite (CssCalcProductNode_calc_numeric _ _ _ _ _ _ _ _ _ Hl Hr).
  unfold product_operands. simpl String.eqb. cbv iota.
  split; [| split; [| split; [| split]]].
  - intros -> ->. reflexivity.
  - intros -> Hfin. rewrite Hfin.
    destruct (createSameUnits_Ret right1 (num_ right1 * num_ left1) s2)
      as (n & Hn & Hprops).
    exists n. split; [| exact Hprops].
    rewrite (bind_Ret _ _ _ _ _ Hn). reflexivity.
  - intros -> -> Hfin. rewrite Hfin.
    destruct (createSameUnits_Ret left1 (num_ left1 * num_ right1) s2)
      as (n & Hn & Hprops).
    exists n. split; [| exact Hprops].
    rewrite (bind_Ret _ _ _ _ _ Hn). reflexivity.
  - intros -> Hfin. rewrite Hfin. reflexivity.
  - intros -> -> Hfin. rewrite Hfin. reflexivity.
Qed.

Lemma CssCalcProductNode_multiplication_witness :
  exists n,
    resolve 2 example_context
        (CssCalcProductNode 1 (Numeric (CssLengthNode 2 10 "px")) (Numeric (CssNumberNode 3 3)) "*")
        example_state
      = Ret (Some (Numeric n)) (allocated example_state) /\
    type_ n = "LEN" /\ units_ n = "px" /\ num_ n = 30%float /\ numeric_oid n = 100.
Proof.
  exact (proj1 (proj2 (proj2 (CssCalcProductNode_multiplication 1 example_context 1
           (Numeric (CssLengthNode 2 10 "px")) (Numeric (CssNumberNode 3 3))
           example_state example_state example_state
           (CssLengthNode 2 10 "px") (CssNumberNode 3 3) eq_refl eq_refl)))
         eq_refl eq_refl eq_refl).
Defined.

(** C3, as the claim states it, fails on the code: a product of two numbers
    has no side that is "the" single number, yet it is accepted and yields a
    number; and a product that overflows yields [null], not a node. *)
Lemma CssCalcProductNode_multiplication_counterexample :
  resolve 2 example_context
      (CssCalcProductNode 1 (Numeric (CssNumberNode 2 2)) (Numeric (CssNumberNode 3 3)) "*")
      example_state
    = Ret (Some (Numeric (CssNumberNode 100 6))) (allocated example_state)
  /\
  resolve 2 example_context
      (CssCalcProductNode 1 (Numeric (CssLengthNode 2 0x1p+1023 "px"))
         (Numeric (CssNumberNode 3 2)) "*")
      example_state
    = Ret None example_state.
Proof. split; reflexivity. Qed.

(** C4. [calc(10px / 0)] resolves to [null] in every context and state, and
    so does every product or quotient whose operands the method accepts and
    whose magnitude [base.num_ * multi] is not finite: no error is thrown and
    nothing is allocated. *)
Theorem CssCalcProductNode_not_finite_is_null :
  (forall (fuel : nat) (context : CssContext) (s : State) (o l r : nat),
     resolve (S (S fuel)) context
         (CssCalcProductNode o (Numeric (CssLengthNode l 10 "px"))
            (Numeric (CssNumberNode r 0)) "/") s
       = Ret None s) /\
  (forall (fuel : nat) (context : CssContext) (oid : nat) (left_ right_ : CssNode)
      (op_ : string) (s s1 s2 : State) (left1 right1 base : CssNumericNode) (multi : float),
     resolve fuel context left_ s = Ret (Some (Numeric left1)) s1 ->
     resolve fuel context right_ s1 = Ret (Some (Numeric right1)) s2 ->
     product_operands op_ left1 right1 = Some (base, multi) ->
     isFinite (num_ base * multi) = false ->
     resolve (S fuel) context (CssCalcProductNode oid left_ right_ op_) s = Ret None s2).
Proof.
  split.
  - intros. reflexivity.
  - intros fuel context oid left_ right_ op_ s s1 s2 left1 right1 base multi
      Hl Hr Hops Hfin.
    rewrite resolve_CssCalcProductNode.
    rewrite (CssCalcProductNode_calc_numeric _ _ _ _ _ _ _ _ _ Hl Hr).
    rewrite Hops, Hfin. reflexivity.
Qed.

Lemma CssCalcProductNode_not_finite_is_null_witness :
  resolve 2 example_context
      (CssCalcProductNode 1 (Numeric (CssNumberNode 2 0x1p+1023))
         (Numeric (CssAngleNode 3 4 "deg")) "*")
      example_state
    = Ret None example_state.
Proof.
  exact (proj2 CssCalcProductNode_not_finite_is_null 1 example_context 1
           (Numeric (CssNumberNode 2 0x1p+1023)) (Numeric (CssAngleNode 3 4 "deg")) "*"
           example_state example_state example_state
           (CssNumberNode 2 0x1p+1023) (CssAngleNode 3 4 "deg")
           (CssAngleNode 3 4 "deg") 0x1p+1023%float
           eq_refl eq_refl eq_refl eq_refl).
Defined.

(** ** Unit normalization *)

(** C5. A length, angle or time node whose units its class converts is
    normalized without error to a node of the same class in the canonical
    units of the class ([px], [rad], [ms]); a node already in canonical units
    is returned as it is, the very same object, and nothing else happens. *)
Theorem norm_canonical (context : CssContext) (this : CssNumericNode) (s : State) :
  supported_units this = true ->
  exists n s',
    norm context this s = Ret n s' /\
    type_ n = type_ this /\
    units_ n = canonical_units this /\
    (units_ this = canonical_units this -> n = this /\ s' = s).
Proof.
  intros Hsup.
  destruct this as [oid num | oid num | oid num units | oid num units | oid num units];
    simpl in Hsup; try discriminate;
    apply bool_decide_eq_true in Hsup;
    repeat (apply elem_of_cons in Hsup as [-> | Hsup]);
    try (apply elem_of_nil in Hsup; contradiction);
    do 2 eexists; (split; [lazy -[Math_min Math_max]; reflexivity |]); simpl;
    (split; [reflexivity |]); (split; [reflexivity |]);
    intros Heq; first [discriminate Heq | split; reflexivity].
Qed.

Lemma norm_canonical_witness :
  exists n s',
    norm example_context (CssAngleNode 7 180 "deg") example_state = Ret n s' /\
    type_ n = "ANG" /\
    units_ n = "rad" /\
    (units_ (CssAngleNode 7 180 "deg") = "rad" ->
     n = CssAngleNode 7 180 "deg" /\ s' = example_state).
Proof.
  exact (norm_canonical example_context (CssAngleNode 7 180 "deg") example_state eq_refl).
Defined.

(** ** Concatenations *)

Lemma CssConcatNode_calc_loop_app (resolve' : CssNode -> M (option CssNode))
    (pre rest resolvedArray : list CssNode) (s : State) :
  CssConcatNode_calc_loop resolve' (pre ++ rest) resolvedArray s =
  match CssConcatNode_calc_loop resolve' pre resolvedArray s with
  | Ret (Some resolvedArray') s1 => CssConcatNode_calc_loop resolve' rest resolvedArray' s1
  | Ret None s1 => Ret None s1
  | Throw message s1 => Throw message s1
  | OutOfFuel => OutOfFuel
  end.
Proof.
  revert resolvedArray s.
  induction pre as [| node pre IH]; intros resolvedArray s; simpl; [reflexivity |].
  unfold bind. destruct (resolve' node s) as [[r |] s1 | |]; try reflexivity.
  apply IH.
Qed.

(** A child that resolves to [null], after the children before it have all
    resolved, makes [CssConcatNode.calc] return [null]: the children after
    it are not resolved and no node is built. *)
Lemma CssConcatNode_calc_null_child (resolve' : CssNode -> M (option CssNode))
    (pre post resolvedPre : list CssNode) (child : CssNode) (s s1 s2 : State) :
  CssConcatNode_calc_loop resolve' pre [] s = Ret (Some resolvedPre) s1 ->
  resolve' child s1 = Ret None s2 ->
  CssConcatNode_calc resolve' (pre ++ child :: post) s = Ret None s2.
Proof.
  intros Hpre Hchild. unfold CssConcatNode_calc, bind.
  rewrite CssConcatNode_calc_loop_app, Hpre. simpl. unfold bind.
  rewrite Hchild. reflexivity.
Qed.

(** C6. A concatenation of a constant node and a [var(--missing)] without
    default resolves to [null] when the context has no value for
    [--missing]; of the resolution only the [getVar] call remains. In
    general, when the children before some child have all resolved and that
    child resolves to [null], the concatenation resolves to [null]: the
    children after it are not resolved and no partial node is built. *)
Theorem CssConcatNode_null_propagation (fuel : nat) (context : CssContext) (s : State)
    (o : nat) :
  (forall (v : nat) (A : CssNode),
     isConst A = true ->
     getVar context "--missing" = None ->
     resolve (S (S fuel)) context (CssConcatNode o [A; CssVarNode v "--missing" None]) s
       = Ret None
           {| dimStack := dimStack s;
              calls := Call_getVar "--missing" :: calls s;
              nextOid := nextOid s |}) /\
  (forall (pre post resolvedPre : list CssNode) (child : CssNode) (s1 s2 : State),
     CssConcatNode_calc_loop (resolve fuel context) pre [] s = Ret (Some resolvedPre) s1 ->
     resolve fuel context child s1 = Ret None s2 ->
     resolve (S fuel) context (CssConcatNode o (pre ++ child :: post)) s = Ret None s2).
Proof.
  assert (Hgeneral : forall fuel0 pre post resolvedPre child s1 s2,
    CssConcatNode_calc_loop (resolve fuel0 context) pre [] s = Ret (Some resolvedPre) s1 ->
    resolve fuel0 context child s1 = Ret None s2 ->
    resolve (S fuel0) context (CssConcatNode o (pre ++ child :: post)) s = Ret None s2).
  { intros fuel0 pre post resolvedPre child s1 s2 Hpre Hchild.
    assert (Hnot : isConst (CssConcatNode o (pre ++ child :: post)) = false).
    { rewrite isConst_CssConcatNode, forallb_app. simpl.
      destruct fuel0 as [| fuel1]; [discriminate Hchild |].
      simpl in Hchild. destruct (isConst child); [discriminate Hchild |].
      apply andb_false_r. }
    change (resolve (S fuel0) context (CssConcatNode o (pre ++ child :: post)) s)
      with ((if isConst (CssConcatNode o (pre ++ child :: post))
             then ret (Some (CssConcatNode o (pre ++ child :: post)))
             else CssConcatNode_calc (resolve fuel0 context) (pre ++ child :: post)) s).
    rewrite Hnot. eapply CssConcatNode_calc_null_child; eassumption. }
  split.
  - intros v A Hconst Hvar.
    apply (Hgeneral (S fuel) [A] [] [A] (CssVarNode v "--missing" None) s).
    + simpl. unfold bind. rewrite Hconst. reflexivity.
    + simpl. unfold CssVarNode_calc, context_getVar, bind, log, ret. simpl.
      rewrite Hvar. reflexivity.
  - apply Hgeneral.
Qed.

Lemma CssConcatNode_null_propagation_witness :
  resolve 2 example_context
      (CssConcatNode 1 [CssPassthroughNode 2 "1s"; CssVarNode 3 "--missing" None])
      example_state
    = Ret None
        {| dimStack := [Some "w"]; calls := [Call_getVar "--missing"]; nextOid := 100 |}.
Proof.
  exact (proj1 (CssConcatNode_null_propagation 0 example_context example_state 1) 3
           (CssPassthroughNode 2 "1s") eq_refl eq_refl).
Defined.

(** ** URLs *)

(** C8. Evaluating a [url()] asks the context once and wraps the answer in a
    fresh passthrough node [url("<resolved>")]; this is what [resolve]
    returns for a [url()] that is not constant. The passthrough node is
    constant: resolving it again, in any context and state, returns the same
    object and leaves the state as it was, so [resolveUrl] is not called
    again. *)
Theorem CssUrlNode_resolves_once (fuel : nat) (context : CssContext) (oid : nat)
    (url_ : string) (s : State) :
  isConst (CssUrlNode oid url_) = false ->
  exists out,
    out = CssPassthroughNode (nextOid s)
            ("url(" +:+ dquote +:+ resolveUrl context url_ +:+ dquote +:+ ")") /\
    calc (resolve fuel context) context (CssUrlNode oid url_) s
      = Ret (Some out)
          {| dimStack := dimStack s;
             calls := Call_resolveUrl url_ :: calls s;
             nextOid := S (nextOid s) |} /\
    resolve (S fuel) context (CssUrlNode oid url_) s
      = calc (resolve fuel context) context (CssUrlNode oid url_) s /\
    (forall (oid' : nat) (css_ : string), isConst (CssPassthroughNode oid' css_) = true) /\
    (forall (fuel' : nat) (context' : CssContext) (s' : State),
       resolve (S fuel') context' out s' = Ret (Some out) s').
Proof.
  intros Hnot. eexists. split; [reflexivity |].
  split; [reflexivity |].
  split.
  - change (resolve (S fuel) context (CssUrlNode oid url_) s)
      with ((if isConst (CssUrlNode oid url_) then ret (Some (CssUrlNode oid url_))
             else calc (resolve fuel context) context (CssUrlNode oid url_)) s).
    rewrite Hnot. reflexivity.
  - split; [intros; reflexivity |]. intros. reflexivity.
Qed.

Lemma CssUrlNode_resolves_once_witness :
  exists out,
    out = CssPassthroughNode 100
            ("url(" +:+ dquote +:+ "https://cdn.example/a.png" +:+ dquote +:+ ")") /\
    calc (resolve 0 example_context) example_context (CssUrlNode 1 "a.png") example_state
      = Ret (Some out)
          {| dimStack := [Some "w"]; calls := [Call_resolveUrl "a.png"]; nextOid := 101 |} /\
    resolve 1 example_context (CssUrlNode 1 "a.png") example_state
      = calc (resolve 0 example_context) example_context (CssUrlNode 1 "a.png") example_state /\
    (forall (oid' : nat) (css_ : string), isConst (CssPassthroughNode oid' css_) = true) /\
    (forall (fuel' : nat) (context' : CssContext) (s' : State),
       resolve (S fuel') context' out s' = Ret (Some out) s').
Proof.
  exact (CssUrlNode_resolves_once 0 example_context 1 "a.png" example_state eq_refl).
Defined.

(** ** The dimension stack and the shape of resolved trees *)

Lemma balanced_refl (s : State) : balanced s s.
Proof. split; [reflexivity |]. exists []. split; reflexivity. Qed.

Lemma count_pushDimension_app (l1 l2 : list ContextCall) :
  count_pushDimension (l1 ++ l2) = count_pushDimension l1 + count_pushDimension l2.
Proof. unfold count_pushDimension. rewrite List.filter_app, length_app. reflexivity. Qed.

Lemma count_popDimension_app (l1 l2 : list ContextCall) :
  count_popDimension (l1 ++ l2) = count_popDimension l1 + count_popDimension l2.
Proof. unfold count_popDimension. rewrite List.filter_app, length_app. reflexivity. Qed.

Lemma balanced_trans (s1 s2 s3 : State) :
  balanced s1 s2 -> balanced s2 s3 -> balanced s1 s3.
Proof.
  intros [Hd1 (m1 & Hc1 & Hn1)] [Hd2 (m2 & Hc2 & Hn2)]. split; [congruence |].
  exists (m2 ++ m1). split.
  - rewrite Hc2, Hc1. apply app_assoc.
  - rewrite count_pushDimension_app, count_popDimension_app. lia.
Qed.

Lemma ensures_ret {A} (a : A) (Q : A -> Prop) : Q a -> ensures (ret a) Q.
Proof. intros HQ s a' s' [= <- <-]. split; [apply balanced_refl | exact HQ]. Qed.

Lemma ensures_throw {A} (message : string) (Q : A -> Prop) : ensures (throw message) Q.
Proof. intros s a s' H. discriminate H. Qed.

Lemma ensures_out_of_fuel {A} (Q : A -> Prop) : ensures out_of_fuel Q.
Proof. intros s a s' H. discriminate H. Qed.

Lemma ensures_bind {A B} (c : M A) (k : A -> M B) (P : A -> Prop) (Q : B -> Prop) :
  ensures c P -> (forall a, P a -> ensures (k a) Q) -> ensures (x <- c;; k x) Q.
Proof.
  intros Hc Hk s b s2 H.
  apply bind_Ret_inv in H as (a & s1 & H1 & H2).
  destruct (Hc _ _ _ H1) as [Hb1 HP].
  destruct (Hk _ HP _ _ _ H2) as [Hb2 HQ].
  split; [exact (balanced_trans _ _ _ Hb1 Hb2) | exact HQ].
Qed.

Lemma ensures_weaken {A} (c : M A) (P Q : A -> Prop) :
  ensures c P -> (forall a, P a -> Q a) -> ensures c Q.
Proof. intros Hc HPQ s a s' H. destruct (Hc _ _ _ H). auto. Qed.

Lemma ensures_log (call : ContextCall) :
  is_pushDimension call = false -> is_popDimension call = false ->
  ensures (log call) (fun _ => True).
Proof.
  intros Hpush Hpop s a s' [= <- <-]. split; [| exact I].
  split; [reflexivity |]. exists [call]. split; [reflexivity |].
  unfold count_pushDimension, count_popDimension. simpl.
  rewrite Hpush, Hpop. reflexivity.
Qed.

Lemma ensures_alloc : ensures alloc (fun _ => True).
Proof.
  intros s a s' [= <- <-]. split; [| exact I].
  split; [reflexivity |]. exists []. split; reflexivity.
Qed.

(** A computation bracketed by [pushDimension] and [popDimension]. *)
Lemma ensures_push_pop {A} (dim : option string) (c : M A) (Q : A -> Prop) :
  ensures c Q ->
  ensures (context_pushDimension dim;;; (r <- c;; context_popDimension;;; ret r)) Q.
Proof.
  intros Hc s a s3 H.
  unfold context_pushDimension, context_popDimension in H.
  unfold bind at 1 2 in H. simpl in H.
  apply bind_Ret_inv in H as (r & s2 & Hrun & H).
  unfold bind, log, ret in H. simpl in H. injection H as <- <-.
  destruct (Hc _ _ _ Hrun) as [[Hd (made & Hcalls & Hcount)] HQ].
  simpl in Hd, Hcalls. split; [| exact HQ]. split.
  - simpl. rewrite Hd. reflexivity.
  - exists (Call_popDimension :: made ++ [Call_pushDimension dim]). simpl. split.
    + rewrite Hcalls, <- app_assoc. reflexivity.
    + unfold count_pushDimension, count_popDimension in *. simpl.
      rewrite !List.filter_app, !length_app. simpl. lia.
Qed.

Lemma ensures_bind_True {A B} (c : M A) (k : A -> M B) (Q : B -> Prop) :
  ensures c (fun _ => True) -> (forall a, ensures (k a) Q) -> ensures (x <- c;; k x) Q.
Proof. intros Hc Hk. apply ensures_bind with (P := fun _ => True); auto. Qed.

(** Straight-line code that neither pushes nor pops. *)
Ltac ensures_step :=
  lazymatch goal with
  | |- ensures (ret _) _ => apply ensures_ret; try exact I
  | |- ensures (throw _) _ => apply ensures_throw
  | |- ensures out_of_fuel _ => apply ensures_out_of_fuel
  | |- ensures (log _) _ => apply ensures_log; reflexivity
  | |- ensures alloc _ => apply ensures_alloc
  | |- ensures (bind _ _) _ => apply ensures_bind_True; [| intros ?]
  | |- ensures (if ?b then _ else _) _ => destruct b
  | |- ensures (match ?x with _ => _ end) _ => destruct x
  | |- ensures (let _ := _ in _) _ => cbv zeta
  end.

Ltac ensures_auto := repeat ensures_step.

Lemma ensures_createSameUnits (this : CssNumericNode) (num : float) :
  ensures (createSameUnits this num) (fun _ => True).
Proof.
  unfold createSameUnits, new_CssNumberNode, new_CssPercentNode, new_CssLengthNode,
    new_CssAngleNode, new_CssTimeNode.
  ensures_auto.
Qed.

Lemma ensures_norm (context : CssContext) (this : CssNumericNode) :
  ensures (norm context this) (fun _ => True).
Proof.
  unfold norm, CssLengthNode_norm, CssAngleNode_norm, CssTimeNode_norm,
    context_getCurrentFontSize, context_getRootFontSize, context_getViewportSize,
    new_CssLengthNode, new_CssAngleNode, new_CssTimeNode.
  ensures_auto.
Qed.

Lemma ensures_calcPercent (context : CssContext) (this : CssNumericNode) (percent : float) :
  ensures (calcPercent context this percent) (fun _ => True).
Proof.
  unfold calcPercent, CssLengthNode_calcPercent, context_getDimension,
    context_getCurrentElementSize, new_CssLengthNode.
  destruct this; ensures_auto.
  all: intros ? ? ? [= <- <-]; split; [apply balanced_refl | exact I].
Qed.

Section Calc_ensures.

Variable resolve' : CssNode -> M (option CssNode).
Variable context : CssContext.
Hypothesis resolve'_ensures : forall node, ensures (resolve' node) null_or_const.

Lemma ensures_CssConcatNode_calc_loop (rest resolvedArray : list CssNode) :
  forallb isConst resolvedArray = true ->
  ensures (CssConcatNode_calc_loop resolve' rest resolvedArray)
    (fun r => match r with Some l => forallb isConst l = true | None => True end).
Proof.
  revert resolvedArray.
  induction rest as [| node rest IH]; intros resolvedArray Hacc; simpl.
  - apply ensures_ret. exact Hacc.
  - eapply ensures_bind; [apply resolve'_ensures |].
    intros [r |] Hr; simpl in Hr.
    + apply IH. rewrite forallb_app, Hacc. simpl. rewrite Hr. reflexivity.
    + apply ensures_ret. exact I.
Qed.

Lemma ensures_CssFuncNode_calc_loop (dimensions_ : option (list string))
    (rest : list CssNode) (i : nat) (resolvedArgs : list CssNode) :
  forallb isConst resolvedArgs = true ->
  ensures (CssFuncNode_calc_loop resolve' dimensions_ rest i resolvedArgs)
    (fun r => match r with Some l => forallb isConst l = true | None => True end).
Proof.
  revert i resolvedArgs.
  induction rest as [| node rest IH]; intros i resolvedArgs Hacc; simpl.
  - apply ensures_ret. exact Hacc.
  - eapply ensures_bind with (P := null_or_const).
    + destruct dimensions_ as [dims |]; [| apply resolve'_ensures].
      destruct (dims !! i) as [dim |]; [| apply resolve'_ensures].
      apply ensures_push_pop. apply resolve'_ensures.
    + intros [r |] Hr; simpl in Hr.
      * apply IH. rewrite forallb_app, Hacc. simpl. rewrite Hr. reflexivity.
      * apply ensures_ret. exact I.
Qed.

Lemma ensures_calc (this : CssNode) : ensures (calc resolve' context this) null_or_const.
Proof.
  destruct this as [oid css_ | oid array_ | oid url_ | n | oid name_ args_ dimensions_
                   | oid varName_ def_ | oid expr_ | oid left_ right_ op_
                   | oid left_ right_ op_]; simpl.
  - apply ensures_ret. reflexivity.
  - unfold CssConcatNode_calc, new_CssConcatNode.
    eapply ensures_bind; [apply ensures_CssConcatNode_calc_loop; reflexivity |].
    intros [l |] Hl; [| apply ensures_ret; exact I].
    apply ensures_bind with (P := fun n => isConst n = true).
    + ensures_auto. rewrite isConst_CssConcatNode. exact Hl.
    + intros n Hn. apply ensures_ret. exact Hn.
  - unfold CssUrlNode_calc, context_resolveUrl, new_CssPassthroughNode.
    apply ensures_bind_True; [ensures_auto |]. intros url.
    apply ensures_bind with (P := fun n => isConst n = true).
    + ensures_auto. reflexivity.
    + intros n Hn. apply ensures_ret. exact Hn.
  - apply ensures_ret. reflexivity.
  - unfold CssFuncNode_calc, new_CssFuncNode.
    eapply ensures_bind; [apply ensures_CssFuncNode_calc_loop; reflexivity |].
    intros [l |] Hl; [| apply ensures_ret; exact I].
    apply ensures_bind with (P := fun n => isConst n = true).
    + ensures_auto. rewrite isConst_CssFuncNode. exact Hl.
    + intros n Hn. apply ensures_ret. exact Hn.
  - unfold CssVarNode_calc, context_getVar.
    apply ensures_bind_True; [ensures_auto |].
    intros [v |]; [apply resolve'_ensures |].
    destruct def_ as [d |]; [apply resolve'_ensures | apply ensures_ret; exact I].
  - apply resolve'_ensures.
  - unfold CssCalcSumNode_calc.
    eapply ensures_bind; [apply resolve'_ensures |]. intros left0 _.
    eapply ensures_bind; [apply resolve'_ensures |]. intros right0 _.
    destruct left0 as [[] |], right0 as [[] |];
      try (apply ensures_ret; exact I); try apply ensures_throw.
    apply ensures_bind_True.
    { repeat first [ apply ensures_calcPercent
                   | apply ensures_bind_True; [| intros ?]
                   | ensures_step ]. }
    intros lr. apply ensures_bind_True.
    { repeat first [ apply ensures_norm
                   | apply ensures_bind_True; [| intros ?]
                   | ensures_step ]. }
    intros lr'. cbv zeta.
    apply ensures_bind_True; [apply ensures_createSameUnits |].
    intros m. apply ensures_ret. reflexivity.
  - unfold CssCalcProductNode_calc.
    eapply ensures_bind; [apply resolve'_ensures |]. intros left0 _.
    eapply ensures_bind; [apply resolve'_ensures |]. intros right0 _.
    destruct left0 as [[] |], right0 as [[] |];
      try (apply ensures_ret; exact I); try apply ensures_throw.
    apply ensures_bind_True; [ensures_auto |].
    intros bm. cbv zeta.
    destruct (negb _); [apply ensures_ret; exact I |].
    apply ensures_bind_True; [apply ensures_createSameUnits |].
    intros m. apply ensures_ret. reflexivity.
Qed.

End Calc_ensures.

(** Every resolution that returns has kept the dimension stack balanced, and
    its result is [null] or a constant node. *)
Lemma ensures_resolve (fuel : nat) (context : CssContext) (this : CssNode) :
  ensures (resolve fuel context this) null_or_const.
Proof.
  revert this. induction fuel as [| fuel IH]; intros this; simpl.
  - apply ensures_out_of_fuel.
  - destruct (isConst this) eqn:Hconst.
    + apply ensures_ret. exact Hconst.
    + apply ensures_calc. exact IH.
Qed.

(** ** Fuel

    The fuel of [resolve] bounds the depth of nested [resolve] calls; a
    resolution that finishes (returns or throws) with some fuel finishes the
    same way with any larger fuel. *)

Lemma extends_refl {A} (c : M A) : extends c c.
Proof. intros s _. reflexivity. Qed.

Lemma extends_bind {A B} (c c' : M A) (k k' : A -> M B) :
  extends c c' -> (forall a, extends (k a) (k' a)) ->
  extends (x <- c;; k x) (x <- c';; k' x).
Proof.
  intros Hc Hk s H. unfold bind in *.
  destruct (c s) as [a s1 | message s1 |] eqn:Hcs.
  - rewrite Hc, Hcs by (rewrite Hcs; discriminate). apply Hk. exact H.
  - rewrite Hc, Hcs by (rewrite Hcs; discriminate). reflexivity.
  - contradiction H. reflexivity.
Qed.

Section Calc_extends.

Variables resolve1 resolve2 : CssNode -> M (option CssNode).
Variable context : CssContext.
Hypothesis resolve_extends : forall node, extends (resolve1 node) (resolve2 node).

Ltac extends_auto :=
  repeat first
    [ apply resolve_extends
    | apply extends_bind; [| intros ?]
    | apply extends_refl
    | match goal with
      | |- extends (match ?x with _ => _ end) (match ?x with _ => _ end) => destruct x
      end ].

Lemma CssConcatNode_calc_loop_extends (rest resolvedArray : list CssNode) :
  extends (CssConcatNode_calc_loop resolve1 rest resolvedArray)
          (CssConcatNode_calc_loop resolve2 rest resolvedArray).
Proof.
  revert resolvedArray. induction rest as [| node rest IH]; intros resolvedArray; simpl.
  - apply extends_refl.
  - apply extends_bind; [apply resolve_extends |].
    intros [r |]; [apply IH | apply extends_refl].
Qed.

Lemma CssFuncNode_calc_loop_extends (dimensions_ : option (list string))
    (rest : list CssNode) (i : nat) (resolvedArgs : list CssNode) :
  extends (CssFuncNode_calc_loop resolve1 dimensions_ rest i resolvedArgs)
          (CssFuncNode_calc_loop resolve2 dimensions_ rest i resolvedArgs).
Proof.
  revert i resolvedArgs.
  induction rest as [| node rest IH]; intros i resolvedArgs; simpl.
  - apply extends_refl.
  - apply extends_bind.
    + destruct dimensions_ as [dims |]; [| apply resolve_extends].
      destruct (dims !! i); extends_auto.
    + intros [r |]; [apply IH | apply extends_refl].
Qed.

Lemma calc_extends (this : CssNode) :
  extends (calc resolve1 context this) (calc resolve2 context this).
Proof.
  destruct this; simpl;
    unfold CssConcatNode_calc, CssFuncNode_calc, CssVarNode_calc, CssCalcNode_calc,
      CssCalcSumNode_calc, CssCalcProductNode_calc;
    try apply extends_refl.
  - apply extends_bind; [apply CssConcatNode_calc_loop_extends | intros; apply extends_refl].
  - apply extends_bind; [apply CssFuncNode_calc_loop_extends | intros; apply extends_refl].
  - extends_auto.
  - apply resolve_extends.
  - extends_auto.
  - extends_auto.
Qed.

End Calc_extends.

Lemma resolve_fuel_S (fuel : nat) (context : CssContext) (this : CssNode) :
  extends (resolve fuel context this) (resolve (S fuel) context this).
Proof.
  revert this. induction fuel as [| fuel IH]; intros this.
  - intros s H. contradiction H. reflexivity.
  - change (extends
              (if isConst this then ret (Some this)
               else calc (resolve fuel context) context this)
              (if isConst this then ret (Some this)
               else calc (resolve (S fuel) context) context this)).
    destruct (isConst this); [apply extends_refl |].
    apply calc_extends. exact IH.
Qed.

(** More fuel does not change a resolution that has finished. *)
Lemma resolve_fuel_le (fuel fuel' : nat) (context : CssContext) (this : CssNode) :
  fuel <= fuel' -> extends (resolve fuel context this) (resolve fuel' context this).
Proof.
  induction 1 as [| fuel' _ IH]; [apply extends_refl |].
  intros s H. rewrite (resolve_fuel_S fuel' context this s) by (rewrite IH; assumption).
  apply IH. exact H.
Qed.

(** C7. Whenever the evaluation of a function call returns, with a node or
    with [null] after an argument resolved to [null], the calls it made on
    the context hold as many [pushDimension] as [popDimension], and the
    dimension stack is as it was before. *)
Theorem CssFuncNode_dimension_balance (fuel : nat) (context : CssContext) (oid : nat)
    (name_ : string) (args_ : list CssNode) (dimensions_ : option (list string))
    (s s' : State) (r : option CssNode) :
  calc (resolve fuel context) context (CssFuncNode oid name_ args_ dimensions_) s = Ret r s' ->
  dimStack s' = dimStack s /\
  exists made : list ContextCall,
    calls s' = made ++ calls s /\
    count_pushDimension made = count_popDimension made.
Proof.
  intros H.
  exact (proj1 (ensures_calc (resolve fuel context) context
                  (ensures_resolve fuel context) _ _ _ _ H)).
Qed.

Lemma CssFuncNode_dimension_balance_witness :
  dimStack
    {| dimStack := [Some "w"];
       calls := [Call_popDimension; Call_getVar "--missing"; Call_pushDimension (Some "h");
                 Call_popDimension; Call_pushDimension (Some "w")];
       nextOid := 100 |} = dimStack example_state /\
  exists made : list ContextCall,
    calls
      {| dimStack := [Some "w"];
         calls := [Call_popDimension; Call_getVar "--missing"; Call_pushDimension (Some "h");
                   Call_popDimension; Call_pushDimension (Some "w")];
         nextOid := 100 |} = made ++ calls example_state /\
    count_pushDimension made = count_popDimension made.
Proof.
  exact (CssFuncNode_dimension_balance 1 example_context 1 "translate"
           [Numeric (CssLengthNode 2 10 "px"); CssVarNode 3 "--missing" None]
           (Some ["w"; "h"]) example_state _ None eq_refl).
Defined.

(** ** Resolved trees hold no [calc()] *)

Section CssNode_induction.

Variable P : CssNode -> Prop.

Hypothesis P_passthrough : forall oid css_, P (CssPassthroughNode oid css_).
Hypothesis P_concat : forall oid array_, Forall P array_ -> P (CssConcatNode oid array_).
Hypothesis P_url : forall oid url_, P (CssUrlNode oid url_).
Hypothesis P_numeric : forall n, P (Numeric n).
Hypothesis P_func : forall oid name_ args_ dimensions_,
  Forall P args_ -> P (CssFuncNode oid name_ args_ dimensions_).
Hypothesis P_var_default : forall oid varName_ d, P d -> P (CssVarNode oid varName_ (Some d)).
Hypothesis P_var : forall oid varName_, P (CssVarNode oid varName_ None).
Hypothesis P_calc : forall oid expr_, P expr_ -> P (CssCalcNode oid expr_).
Hypothesis P_sum : forall oid left_ right_ op_,
  P left_ -> P right_ -> P (CssCalcSumNode oid left_ right_ op_).
Hypothesis P_product : forall oid left_ right_ op_,
  P left_ -> P right_ -> P (CssCalcProductNode oid left_ right_ op_).

(** Structural induction on nodes, through the arrays of children. *)
Fixpoint CssNode_nested_ind (this : CssNode) : P this :=
  let all :=
    fix all (l : list CssNode) : Forall P l :=
      match l with
      | [] => @List.Forall_nil _ P
      | node :: l' => @List.Forall_cons _ P node l' (CssNode_nested_ind node) (all l')
      end in
  match this with
  | CssPassthroughNode oid css_ => P_passthrough oid css_
  | CssConcatNode oid array_ => P_concat oid array_ (all array_)
  | CssUrlNode oid url_ => P_url oid url_
  | Numeric n => P_numeric n
  | CssFuncNode oid name_ args_ dimensions_ => P_func oid name_ args_ dimensions_ (all args_)
  | CssVarNode oid varName_ (Some d) => P_var_default oid varName_ d (CssNode_nested_ind d)
  | CssVarNode oid varName_ None => P_var oid varName_
  | CssCalcNode oid expr_ => P_calc oid expr_ (CssNode_nested_ind expr_)
  | CssCalcSumNode oid left_ right_ op_ =>
      P_sum oid left_ right_ op_ (CssNode_nested_ind left_) (CssNode_nested_ind right_)
  | CssCalcProductNode oid left_ right_ op_ =>
      P_product oid left_ right_ op_ (CssNode_nested_ind left_) (CssNode_nested_ind right_)
  end.

End CssNode_induction.

Lemma forallb_const_no_CssCalcNode (l : list CssNode) :
  Forall (fun node => isConst node = true -> contains_CssCalcNode node = false) l ->
  forallb isConst l = true -> existsb contains_CssCalcNode l = false.
Proof.
  induction 1 as [| node l Hnode _ IH]; simpl; [reflexivity |].
  intros [Hc Hl]%andb_prop. rewrite (Hnode Hc), (IH Hl). reflexivity.
Qed.

(** A constant node holds no [CssCalcNode]. *)
Lemma const_no_CssCalcNode (this : CssNode) :
  isConst this = true -> contains_CssCalcNode this = false.
Proof.
  induction this using CssNode_nested_ind; try (simpl; congruence).
  - rewrite isConst_CssConcatNode. simpl. apply forallb_const_no_CssCalcNode. assumption.
  - rewrite isConst_CssFuncNode. simpl. apply forallb_const_no_CssCalcNode. assumption.
Qed.

(** C9, as the code has it. Resolving a [calc()] node is resolving the
    expression it wraps, one call deeper: the two agree at fuel [S fuel] and
    [fuel], and at any larger fuel once the inner resolution finishes.
    Whatever node a resolution returns, of a [calc()] node or of any other,
    is constant and holds no [CssCalcNode]. *)
Theorem CssCalcNode_unwrapped (fuel : nat) (context : CssContext) (oid : nat)
    (expr_ : CssNode) (s : State) :
  resolve (S fuel) context (CssCalcNode oid expr_) s = resolve fuel context expr_ s /\
  (forall fuel' : nat,
     fuel < fuel' ->
     resolve fuel context expr_ s <> OutOfFuel ->
     resolve fuel' context (CssCalcNode oid expr_) s = resolve fuel context expr_ s) /\
  (forall (fuel' : nat) (this out : CssNode) (s' : State),
     resolve fuel' context this s = Ret (Some out) s' ->
     isConst out = true /\ contains_CssCalcNode out = false).
Proof.
  split; [reflexivity |]. split.
  - intros fuel' Hlt Hfin.
    apply (resolve_fuel_le (S fuel) fuel' context (CssCalcNode oid expr_)); [lia |].
    exact Hfin.
  - intros fuel' this out s' H.
    assert (Hconst : isConst out = true).
    { exact (proj2 (ensures_resolve _ _ _ _ _ _ H)). }
    split; [exact Hconst | exact (const_no_CssCalcNode out Hconst)].
Qed.

Lemma CssCalcNode_unwrapped_witness :
  isConst (Numeric (CssLengthNode 101 150 "px")) = true /\
  contains_CssCalcNode (Numeric (CssLengthNode 101 150 "px")) = false.
Proof.
  exact (proj2 (proj2 (CssCalcNode_unwrapped 2 example_context 1
           (CssCalcSumNode 2 (Numeric (CssLengthNode 3 50 "px")) (Numeric (CssPercentNode 4 50)) "+")
           example_state))
         3 (CssCalcNode 1 (CssCalcSumNode 2 (Numeric (CssLengthNode 3 50 "px"))
                             (Numeric (CssPercentNode 4 50)) "+"))
         (Numeric (CssLengthNode 101 150 "px")) _ eq_refl).
Defined.

(** C9, as the claim states it, fails on the code: a constant [url()] under
    a [calc()] is returned as it is, and its CSS holds the text [calc(] of
    the URL. *)
Lemma CssCalcNode_unwrapped_counterexample :
  resolve 2 example_context
      (CssCalcNode 1 (CssUrlNode 2 "https://example.com/calc(1).png")) example_state
    = Ret (Some (CssUrlNode 2 "https://example.com/calc(1).png")) example_state /\
  (forall numToString : float -> string,
     includes "calc(" (css numToString (CssUrlNode 2 "https://example.com/calc(1).png")) = true).
Proof. split; [reflexivity | intros; reflexivity]. Qed.

(** ** The static [concat] *)

Lemma is_CssConcatNode_at_insert_array (h : Store) (r x : ref) (old new_ : list ref) :
  h !! r = Some (ArrayObject old) ->
  is_CssConcatNode_at (<[r := ArrayObject new_]> h) x = is_CssConcatNode_at h x.
Proof.
  intros Hr. unfold is_CssConcatNode_at.
  destruct (decide (r = x)) as [<- | Hne].
  - rewrite list_lookup_insert_eq by (eapply lookup_lt_Some; eassumption).
    rewrite Hr. reflexivity.
  - rewrite list_lookup_insert_ne by assumption. reflexivity.
Qed.

(** C10, as the code has it. When the first argument [a] of [concat] is a
    [CssConcatNode], the call returns [a] itself and the children of [a] are
    afterwards its old children followed by the children of [b], if [b] is a
    [CssConcatNode], or by [b] itself otherwise. The node [a] is the object
    updated: the store holds the same [CssConcatNode] objects as before. Only
    for a [b] that is not a [CssConcatNode] is the array of [a] extended in
    place, by [push]: [a.array_] is the same array and nothing is allocated.
    For a [CssConcatNode] [b] the field [a.array_] is set to the new array
    [Array.prototype.concat] builds, the one object allocated, and the old
    array, like every object but [a], is as it was. *)
Theorem concat_extends_first_in_place (h : Store) (a b array : ref) (xs : list ref) :
  h !! a = Some (ConcatNodeObject array) ->
  h !! array = Some (ArrayObject xs) ->
  (forall (array_b : ref) (ys : list ref),
     h !! b = Some (ConcatNodeObject array_b) ->
     h !! array_b = Some (ArrayObject ys) ->
     exists h',
       concat h a b = Some (h', a) /\
       children h' a = Some (xs ++ ys) /\
       get_array_ h' a = Some (length h) /\
       length h' = S (length h) /\
       h' !! array = Some (ArrayObject xs) /\
       (forall x, is_CssConcatNode_at h' x = is_CssConcatNode_at h x) /\
       (forall x, x <> a -> x < length h -> h' !! x = h !! x)) /\
  (forall ob : Object,
     h !! b = Some ob ->
     instanceof_CssConcatNode ob = false ->
     exists h',
       concat h a b = Some (h', a) /\
       children h' a = Some (xs ++ [b]) /\
       get_array_ h' a = Some array /\
       length h' = length h /\
       (forall x, is_CssConcatNode_at h' x = is_CssConcatNode_at h x) /\
       (forall x, x <> array -> h' !! x = h !! x)).
Proof.
  intros Ha Harray.
  assert (Hlt : a < length h) by (eapply lookup_lt_Some; eassumption).
  split.
  - intros array_b ys Hb Hys.
    exists (<[a := ConcatNodeObject (length h)]> (h ++ [ArrayObject (xs ++ ys)])).
    assert (Harray_lt : array < length h) by (eapply lookup_lt_Some; eassumption).
    assert (Hneq : array <> a) by (intros ->; congruence).
    split; [| split; [| split; [| split; [| split; [| split]]]]].
    + unfold concat, get_array_, get_elements, store_new.
      repeat (first [rewrite Ha | rewrite Hb | rewrite Harray | rewrite Hys];
              cbn [mbind option_bind instanceof_CssConcatNode]).
      reflexivity.
    + unfold children, get_array_, get_elements.
      rewrite list_lookup_insert_eq by (rewrite length_app; lia). simpl.
      rewrite list_lookup_insert_ne by lia.
      rewrite lookup_app_r by lia. rewrite Nat.sub_diag. reflexivity.
    + unfold get_array_.
      rewrite list_lookup_insert_eq by (rewrite length_app; lia). reflexivity.
    + rewrite length_insert, length_app. simpl. lia.
    + rewrite list_lookup_insert_ne by congruence.
      rewrite lookup_app_l by assumption. exact Harray.
    + intros x. unfold is_CssConcatNode_at.
      destruct (decide (a = x)) as [<- | Hne].
      * rewrite list_lookup_insert_eq by (rewrite length_app; lia).
        rewrite Ha. reflexivity.
      * rewrite list_lookup_insert_ne by assumption.
        destruct (decide (x < length h)) as [Hx | Hx].
        -- rewrite lookup_app_l by assumption. reflexivity.
        -- rewrite lookup_app_r by lia.
           rewrite (lookup_ge_None_2 h x) by lia.
           destruct (x - length h) as [| k]; reflexivity.
    + intros x Hne Hx.
      rewrite list_lookup_insert_ne by congruence.
      apply lookup_app_l. assumption.
  - intros ob Hb Hob.
    exists (<[array := ArrayObject (xs ++ [b])]> h).
    assert (Hneq : array <> a) by (intros ->; congruence).
    split; [| split; [| split; [| split; [| split]]]].
    + unfold concat, get_array_, get_elements.
      repeat (first [rewrite Ha | rewrite Hb | rewrite Harray | rewrite Hob];
              cbn [mbind option_bind instanceof_CssConcatNode]).
      reflexivity.
    + unfold children, get_array_, get_elements.
      rewrite list_lookup_insert_ne by assumption. rewrite Ha. simpl.
      rewrite list_lookup_insert_eq by (eapply lookup_lt_Some; eassumption).
      reflexivity.
    + unfold get_array_. rewrite list_lookup_insert_ne by assumption.
      rewrite Ha. reflexivity.
    + apply length_insert.
    + intros x. eapply is_CssConcatNode_at_insert_array. eassumption.
    + intros x Hx. apply list_lookup_insert_ne. congruence.
Qed.

Lemma concat_extends_first_in_place_witness :
  exists h',
    concat example_store 1 3 = Some (h', 1) /\
    children h' 1 = Some ([2] ++ [3]) /\
    get_array_ h' 1 = Some 0 /\
    length h' = length example_store /\
    (forall x, is_CssConcatNode_at h' x = is_CssConcatNode_at example_store x) /\
    (forall x, x <> 0 -> h' !! x = example_store !! x).
Proof.
  exact (proj2 (concat_extends_first_in_place example_store 1 3 0 [2] eq_refl eq_refl)
           OtherNodeObject eq_refl eq_refl).
Defined.

(** C10, as the claim states it, fails on the code: when [b] is a
    [CssConcatNode] its children are not appended to the array of [a] in
    place. Here [a] is the node at 1 over the array [[4]] at 0, and [b] the
    node at 3 over the array [[5]] at 2: after [concat] the array at 0 still
    holds [[4]] alone, and [a.array_] is the new array [[4; 5]] at 6. *)
Lemma concat_extends_first_in_place_counterexample :
  concat example_store_two_sets 1 3
    = Some ([ArrayObject [4]; ConcatNodeObject 6; ArrayObject [5]; ConcatNodeObject 2;
             OtherNodeObject; OtherNodeObject; ArrayObject [4; 5]], 1) /\
  get_array_ example_store_two_sets 1 = Some 0 /\
  get_elements example_store_two_sets 0 = Some [4] /\
  get_array_ [ArrayObject [4]; ConcatNodeObject 6; ArrayObject [5]; ConcatNodeObject 2;
              OtherNodeObject; OtherNodeObject; ArrayObject [4; 5]] 1 = Some 6 /\
  get_elements [ArrayObject [4]; ConcatNodeObject 6; ArrayObject [5]; ConcatNodeObject 2;
                OtherNodeObject; OtherNodeObject; ArrayObject [4; 5]] 0 = Some [4].
Proof. repeat split; reflexivity. Qed.

(** ** The model on concrete inputs *)

Example norm_180deg :
  norm example_context (CssAngleNode 7 180 "deg") example_state
    = Ret (CssAngleNode 100 Math_PI "rad") (allocated example_state).
Proof. reflexivity. Qed.

Example norm_10vmin :
  norm example_context (CssLengthNode 7 10 "vmin") example_state
    = Ret (CssLengthNode 100 50 "px")
        {| dimStack := [Some "w"]; calls := [Call_getViewportSize]; nextOid := 101 |}.
Proof. reflexivity. Qed.

Example norm_unknown_units :
  norm example_context (CssLengthNode 7 1 "cm") example_state
    = Throw "unknown units: cm" example_state.
Proof. reflexivity. Qed.

Example new_CssTranslateNode_x :
  new_CssTranslateNode "x" [Numeric (CssLengthNode 2 10 "PX")] example_state
    = Ret (CssFuncNode 100 "translatex" [Numeric (CssLengthNode 2 10 "PX")] (Some ["w"]))
        (allocated example_state).
Proof. reflexivity. Qed.

Example css_translatex (numToString : float -> string) :
  numToString 10%float = "10" ->
  css numToString (CssFuncNode 1 "translatex" [Numeric (CssLengthNode 2 10 "px")] (Some ["w"]))
    = "translatex(10px)".
Proof. intros H. simpl. rewrite H. reflexivity. Qed.

(** [calc(2em + 10px)] with a font size of 16: both sides are normalized. *)
Example resolve_sum_em_px :
  resolve 3 example_context
      (CssCalcNode 1 (CssCalcSumNode 2 (Numeric (CssLengthNode 3 2 "em"))
                        (Numeric (CssLengthNode 4 10 "px")) "+"))
      example_state
    = Ret (Some (Numeric (CssLengthNode 101 42 "px")))
        {| dimStack := [Some "w"]; calls := [Call_getCurrentFontSize]; nextOid := 102 |}.
Proof. reflexivity. Qed.

Example resolve_sum_mismatch :
  resolve 2 example_context
      (CssCalcSumNode 1 (Numeric (CssLengthNode 2 1 "px")) (Numeric (CssAngleNode 3 1 "deg")) "+")
      example_state
    = Throw "left and right must be the same type" example_state.
Proof. reflexivity. Qed.

(** [translate(50%, 50%)] on an element of 200 by 100: each argument is
    resolved under its own dimension. *)
Example resolve_translate_percent :
  resolve 4
      example_context
      (CssFuncNode 1 "translate"
         [CssCalcNode 2 (CssCalcSumNode 3 (Numeric (CssLengthNode 4 0 "px"))
                           (Numeric (CssPercentNode 5 50)) "+");
          CssCalcNode 6 (CssCalcSumNode 7 (Numeric (CssLengthNode 8 0 "px"))
                           (Numeric (CssPercentNode 9 50)) "+")]
         (Some ["w"; "h"]))
      {| dimStack := []; calls := []; nextOid := 100 |}
    = Ret (Some (CssFuncNode 104 "translate"
                   [Numeric (CssLengthNode 101 100 "px"); Numeric (CssLengthNode 103 50 "px")]
                   None))
        {| dimStack := [];
           calls := [Call_popDimension; Call_getCurrentElementSize; Call_getDimension;
                     Call_pushDimension (Some "h");
                     Call_popDimension; Call_getCurrentElementSize; Call_getDimension;
                     Call_pushDimension (Some "w")];
           nextOid := 105 |}.
Proof. reflexivity. Qed.

(** A variable bound to itself: the resolution never finishes. *)
Example resolve_var_cycle (fuel : nat) (s : State) :
  resolve fuel
      {| resolveUrl := fun url => url;
         getVar := fun _ => Some (CssVarNode 1 "--a" None);
         getCurrentFontSize := 16; getRootFontSize := 16;
         getViewportSize := {| width := 0; height := 0 |};
         getCurrentElementSize := {| width := 0; height := 0 |} |}
      (CssVarNode 1 "--a" None) s
    = OutOfFuel.
Proof.
  revert s. induction fuel as [| fuel IH]; intros s; [reflexivity |].
  simpl. unfold CssVarNode_calc, context_getVar, bind, log, ret. simpl. apply IH.
Qed.

(** [concat] of two nodes that are not concatenations builds a new
    [CssConcatNode] over a new array and pushes the second node on it. *)
Example concat_two_nodes :
  concat example_store 2 3
    = Some ([ArrayObject [2]; ConcatNodeObject 0; OtherNodeObject; OtherNodeObject;
             ArrayObject [2; 3]; ConcatNodeObject 4], 5).
Proof. reflexivity. Qed.

(** [concat] of a concatenation with itself: its field [array_] is set to a
    new array, the old array stays as it was. *)
Example concat_with_itself :
  concat example_store 1 1
    = Some ([ArrayObject [2]; ConcatNodeObject 4; OtherNodeObject; OtherNodeObject;
             ArrayObject [2; 2]], 1).
Proof. reflexivity. Qed.

(** * Further properties *)

(** ** Resolved trees are fully resolved *)

(** X1. Whatever node a resolution returns is a fixed point of [resolve]:
    resolved again, in any context and state, it is returned as the same
    object and the state is left as it was. *)
Theorem resolve_idempotent (fuel : nat) (context : CssContext) (this out : CssNode)
    (s s' : State) :
  resolve fuel context this s = Ret (Some out) s' ->
  forall (fuel' : nat) (context' : CssContext) (s'' : State),
    resolve (S fuel') context' out s'' = Ret (Some out) s''.
Proof.
  intros H fuel' context' s''.
  assert (Hconst : isConst out = true).
  { exact (proj2 (ensures_resolve _ _ _ _ _ _ H)). }
  simpl. rewrite Hconst. reflexivity.
Qed.

Lemma resolve_idempotent_witness :
  resolve 1 example_context (Numeric (CssLengthNode 101 42 "px")) example_state
    = Ret (Some (Numeric (CssLengthNode 101 42 "px"))) example_state.
Proof.
  exact (resolve_idempotent 3 example_context
           (CssCalcNode 1 (CssCalcSumNode 2 (Numeric (CssLengthNode 3 2 "em"))
                             (Numeric (CssLengthNode 4 10 "px")) "+"))
           (Numeric (CssLengthNode 101 42 "px")) example_state _ eq_refl
           0 example_context example_state).
Defined.

Lemma forallb_isConst_no_variable (l : list CssNode) :
  Forall (fun node => isConst node = negb (exists_subnode is_variable_component node)) l ->
  forallb isConst l = negb (existsb (exists_subnode is_variable_component) l).
Proof.
  induction 1 as [| node l Hnode _ IH]; simpl; [reflexivity |].
  rewrite Hnode, IH, negb_orb. reflexivity.
Qed.

(** X2. [isConst()] is true exactly of the trees that hold, at no depth, a
    [var()], a [calc()], a sum, a product or a [url()] that is neither empty
    nor final; and the node a resolution returns is such a tree. *)
Theorem resolved_holds_no_variable_component (fuel : nat) (context : CssContext)
    (this : CssNode) (s : State) :
  isConst this = negb (exists_subnode is_variable_component this) /\
  (forall (out : CssNode) (s' : State),
     resolve fuel context this s = Ret (Some out) s' ->
     exists_subnode is_variable_component out = false).
Proof.
  assert (Hchar : forall node,
            isConst node = negb (exists_subnode is_variable_component node)).
  { induction node using CssNode_nested_ind; try reflexivity.
    - rewrite isConst_CssConcatNode. simpl. apply forallb_isConst_no_variable. assumption.
    - simpl. rewrite orb_false_r, negb_involutive. reflexivity.
    - rewrite isConst_CssFuncNode. simpl. apply forallb_isConst_no_variable. assumption. }
  split; [apply Hchar |].
  intros out s' H.
  assert (Hconst : isConst out = true).
  { exact (proj2 (ensures_resolve _ _ _ _ _ _ H)). }
  rewrite Hchar in Hconst. apply negb_true_iff in Hconst. exact Hconst.
Qed.

Lemma resolved_holds_no_variable_component_witness :
  exists_subnode is_variable_component
    (CssFuncNode 104 "translate"
       [Numeric (CssLengthNode 101 100 "px"); Numeric (CssLengthNode 103 50 "px")] None)
  = false.
Proof.
  exact (proj2 (resolved_holds_no_variable_component 4 example_context
           (CssFuncNode 1 "translate"
              [CssCalcNode 2 (CssCalcSumNode 3 (Numeric (CssLengthNode 4 0 "px"))
                                (Numeric (CssPercentNode 5 50)) "+");
               CssCalcNode 6 (CssCalcSumNode 7 (Numeric (CssLengthNode 8 0 "px"))
                                (Numeric (CssPercentNode 9 50)) "+")]
              (Some ["w"; "h"]))
           {| dimStack := []; calls := []; nextOid := 100 |})
         (CssFuncNode 104 "translate"
            [Numeric (CssLengthNode 101 100 "px"); Numeric (CssLengthNode 103 50 "px")] None)
         {| dimStack := [];
            calls := [Call_popDimension; Call_getCurrentElementSize; Call_getDimension;
                      Call_pushDimension (Some "h");
                      Call_popDimension; Call_getCurrentElementSize; Call_getDimension;
                      Call_pushDimension (Some "w")];
            nextOid := 105 |}
         eq_refl).
Defined.

(** ** The dimension stack when an error is thrown *)

Lemma pending_refl (s : State) : pending s s.
Proof. exists [], []. repeat split; reflexivity. Qed.

Lemma balanced_pending_trans (s1 s2 s3 : State) :
  balanced s1 s2 -> pending s2 s3 -> pending s1 s3.
Proof.
  intros [Hd1 (m1 & Hc1 & Hn1)] (tags & m2 & Hd2 & Hc2 & Hn2).
  exists tags, (m2 ++ m1). split; [congruence |]. split.
  - rewrite Hc2, Hc1. apply app_assoc.
  - rewrite count_pushDimension_app, count_popDimension_app. lia.
Qed.

Lemma throws_pending_ret {A} (a : A) : throws_pending (ret a).
Proof. intros s m s' H. discriminate H. Qed.

Lemma throws_pending_throw {A} (message : string) : throws_pending (@throw A message).
Proof. intros s m s' [= <- <-]. apply pending_refl. Qed.

Lemma throws_pending_out_of_fuel {A} : throws_pending (@out_of_fuel A).
Proof. intros s m s' H. discriminate H. Qed.

Lemma throws_pending_log (call : ContextCall) : throws_pending (log call).
Proof. intros s m s' H. discriminate H. Qed.

Lemma throws_pending_alloc : throws_pending alloc.
Proof. intros s m s' H. discriminate H. Qed.

Lemma throws_pending_bind {A B} (c : M A) (k : A -> M B) (P : A -> Prop) :
  ensures c P -> throws_pending c -> (forall a, P a -> throws_pending (k a)) ->
  throws_pending (x <- c;; k x).
Proof.
  intros Hens Hc Hk s m s2 H. unfold bind in H.
  destruct (c s) as [a s1 | m1 s1 |] eqn:Hcs; [| | discriminate H].
  - destruct (Hens _ _ _ Hcs) as [Hbal HP].
    exact (balanced_pending_trans _ _ _ Hbal (Hk a HP _ _ _ H)).
  - injection H as <- <-. exact (Hc _ _ _ Hcs).
Qed.

Lemma throws_pending_bind_True {A B} (c : M A) (k : A -> M B) :
  ensures c (fun _ => True) -> throws_pending c -> (forall a, throws_pending (k a)) ->
  throws_pending (x <- c;; k x).
Proof. intros Hens Hc Hk. apply throws_pending_bind with (P := fun _ => True); auto. Qed.

(** An error thrown between [pushDimension] and [popDimension] leaves the
    pushed tag on the stack. *)
Lemma throws_push_pop {A} (dim : option string) (c : M A) (Q : A -> Prop)
    (s : State) (message : string) (s' : State) :
  ensures c Q -> throws_pending c ->
  (context_pushDimension dim;;; (r <- c;; context_popDimension;;; ret r)) s
    = Throw message s' ->
  exists (tags : list (option string)) (made : list ContextCall),
    dimStack s' = tags ++ dimStack s /\ tags <> [] /\
    calls s' = made ++ calls s /\
    count_pushDimension made = count_popDimension made + length tags.
Proof.
  intros Hens Hc H.
  unfold context_pushDimension, context_popDimension in H.
  unfold bind at 1 2 in H. simpl in H.
  unfold bind at 1 in H.
  match type of H with
  | match c ?s1 with _ => _ end = _ => destruct (c s1) as [r s2 | m2 s2 |] eqn:Hrun
  end; [discriminate H | | discriminate H].
  injection H as <- <-.
  destruct (Hc _ _ _ Hrun) as (tags & made & Hd & Hcalls & Hcount).
  simpl in Hd, Hcalls.
  exists (tags ++ [dim]), (made ++ [Call_pushDimension dim]).
  split; [rewrite Hd, <- app_assoc; reflexivity |].
  split; [destruct tags; discriminate |].
  split; [rewrite Hcalls, <- app_assoc; reflexivity |].
  rewrite count_pushDimension_app, count_popDimension_app, length_app.
  unfold count_pushDimension, count_popDimension in *. simpl. lia.
Qed.

Ltac throws_step :=
  lazymatch goal with
  | |- throws_pending (ret _) => apply throws_pending_ret
  | |- throws_pending (throw _) => apply throws_pending_throw
  | |- throws_pending out_of_fuel => apply throws_pending_out_of_fuel
  | |- throws_pending (log _) => apply throws_pending_log
  | |- throws_pending alloc => apply throws_pending_alloc
  | |- throws_pending (bind _ _) =>
      apply throws_pending_bind_True; [| | intros ?]
  | |- throws_pending (if ?b then _ else _) => destruct b
  | |- throws_pending (match ?x with _ => _ end) => destruct x
  | |- throws_pending (let _ := _ in _) => cbv zeta
  end.

(** Straight-line code of the numeric unit model, for both invariants. *)
Ltac numeric_step :=
  first
    [ apply ensures_calcPercent | apply ensures_norm | apply ensures_createSameUnits
    | ensures_step | throws_step ].

Lemma throws_pending_createSameUnits (this : CssNumericNode) (num : float) :
  throws_pending (createSameUnits this num).
Proof.
  unfold createSameUnits, new_CssNumberNode, new_CssPercentNode, new_CssLengthNode,
    new_CssAngleNode, new_CssTimeNode.
  repeat numeric_step.
Qed.

Lemma throws_pending_norm (context : CssContext) (this : CssNumericNode) :
  throws_pending (norm context this).
Proof.
  unfold norm, CssLengthNode_norm, CssAngleNode_norm, CssTimeNode_norm,
    context_getCurrentFontSize, context_getRootFontSize, context_getViewportSize,
    new_CssLengthNode, new_CssAngleNode, new_CssTimeNode.
  repeat numeric_step.
Qed.

Lemma throws_pending_calcPercent (context : CssContext) (this : CssNumericNode)
    (percent : float) :
  throws_pending (calcPercent context this percent).
Proof.
  intros s m s' H. destruct this; simpl in H;
    try (injection H as <- <-; apply pending_refl).
  discriminate H.
Qed.

Section Calc_throws.

Variable resolve' : CssNode -> M (option CssNode).
Variable context : CssContext.
Hypothesis resolve'_ensures : forall node, ensures (resolve' node) null_or_const.
Hypothesis resolve'_throws : forall node, throws_pending (resolve' node).

Lemma throws_pending_CssConcatNode_calc_loop (rest resolvedArray : list CssNode) :
  throws_pending (CssConcatNode_calc_loop resolve' rest resolvedArray).
Proof.
  revert resolvedArray. induction rest as [| node rest IH]; intros resolvedArray; simpl.
  - apply throws_pending_ret.
  - eapply throws_pending_bind;
      [apply resolve'_ensures | apply resolve'_throws |].
    intros [r |] _; [apply IH | apply throws_pending_ret].
Qed.

(** The argument of a function call, under its dimension if it has one. *)
Lemma ensures_CssFuncNode_argument (dimensions_ : option (list string)) (i : nat)
    (node : CssNode) :
  ensures
    match dimensions_ with
    | Some dims =>
        match dims !! i with
        | Some dim =>
            context_pushDimension (Some dim);;;
            resolved <- resolve' node;;
            context_popDimension;;;
            ret resolved
        | None => resolve' node
        end
    | None => resolve' node
    end null_or_const.
Proof.
  destruct dimensions_ as [dims |]; [| apply resolve'_ensures].
  destruct (dims !! i) as [dim |]; [| apply resolve'_ensures].
  apply ensures_push_pop. apply resolve'_ensures.
Qed.

Lemma throws_pending_CssFuncNode_calc_loop (dimensions_ : option (list string))
    (rest : list CssNode) (i : nat) (resolvedArgs : list CssNode) :
  throws_pending (CssFuncNode_calc_loop resolve' dimensions_ rest i resolvedArgs).
Proof.
  revert i resolvedArgs.
  induction rest as [| node rest IH]; intros i resolvedArgs; simpl.
  - apply throws_pending_ret.
  - eapply throws_pending_bind; [apply ensures_CssFuncNode_argument | |].
    + destruct dimensions_ as [dims |]; [| apply resolve'_throws].
      destruct (dims !! i) as [dim |]; [| apply resolve'_throws].
      intros s m s' H.
      destruct (throws_push_pop _ _ _ _ _ _ (resolve'_ensures node)
                  (resolve'_throws node) H) as (tags & made & Hd & _ & Hc & Hn).
      exists tags, made. auto.
    + intros [r |] _; [apply IH | apply throws_pending_ret].
Qed.

(** When every argument has a dimension, an error thrown by the loop of
    [CssFuncNode.calc] was thrown under one. *)
Lemma throws_CssFuncNode_calc_loop_strict (dims : list string)
    (rest : list CssNode) (i : nat) (resolvedArgs : list CssNode)
    (s : State) (message : string) (s' : State) :
  i + length rest <= length dims ->
  CssFuncNode_calc_loop resolve' (Some dims) rest i resolvedArgs s = Throw message s' ->
  exists (tags : list (option string)) (made : list ContextCall),
    dimStack s' = tags ++ dimStack s /\ tags <> [] /\
    calls s' = made ++ calls s /\
    count_pushDimension made = count_popDimension made + length tags.
Proof.
  revert i resolvedArgs s.
  induction rest as [| node rest IH]; intros i resolvedArgs s Hlen H; simpl in H.
  - discriminate H.
  - simpl in Hlen.
    destruct (lookup_lt_is_Some_2 dims i ltac:(lia)) as [dim Hdim].
    rewrite Hdim in H. unfold bind at 1 in H.
    match type of H with
    | match ?c s with _ => _ end = _ => destruct (c s) as [r s1 | m1 s1 |] eqn:Harg
    end; [| | discriminate H].
    + pose proof (ensures_CssFuncNode_argument (Some dims) i node) as Hens.
      simpl in Hens. rewrite Hdim in Hens.
      destruct (Hens _ _ _ Harg) as [[Hd1 (m1 & Hc1 & Hn1)] _].
      destruct r as [r |]; [| discriminate H].
      destruct (IH (S i) _ s1 ltac:(lia) H) as (tags & made & Hd & Hne & Hc & Hn).
      exists tags, (made ++ m1). split; [congruence |]. split; [exact Hne |]. split.
      * rewrite Hc, Hc1. apply app_assoc.
      * rewrite count_pushDimension_app, count_popDimension_app. lia.
    + injection H as <- <-.
      exact (throws_push_pop _ _ _ _ _ _ (resolve'_ensures node)
               (resolve'_throws node) Harg).
Qed.

Lemma throws_pending_calc (this : CssNode) : throws_pending (calc resolve' context this).
Proof.
  destruct this as [oid css_ | oid array_ | oid url_ | n | oid name_ args_ dimensions_
                   | oid varName_ def_ | oid expr_ | oid left_ right_ op_
                   | oid left_ right_ op_]; simpl.
  - apply throws_pending_ret.
  - unfold CssConcatNode_calc, new_CssConcatNode.
    eapply throws_pending_bind;
      [apply ensures_CssConcatNode_calc_loop; [assumption | reflexivity]
      | apply throws_pending_CssConcatNode_calc_loop |].
    intros [l |] _; repeat numeric_step.
  - unfold CssUrlNode_calc, context_resolveUrl, new_CssPassthroughNode.
    repeat numeric_step.
  - apply throws_pending_ret.
  - unfold CssFuncNode_calc, new_CssFuncNode.
    eapply throws_pending_bind;
      [apply ensures_CssFuncNode_calc_loop; [assumption | reflexivity]
      | apply throws_pending_CssFuncNode_calc_loop |].
    intros [l |] _; repeat numeric_step.
  - unfold CssVarNode_calc, context_getVar.
    apply throws_pending_bind_True; [repeat numeric_step | repeat numeric_step |].
    intros [v |]; [apply resolve'_throws |].
    destruct def_ as [d |]; [apply resolve'_throws | apply throws_pending_ret].
  - apply resolve'_throws.
  - unfold CssCalcSumNode_calc.
    eapply throws_pending_bind;
      [apply resolve'_ensures | apply resolve'_throws | intros left0 _].
    eapply throws_pending_bind;
      [apply resolve'_ensures | apply resolve'_throws | intros right0 _].
    destruct left0 as [[] |], right0 as [[] |];
      try apply throws_pending_ret; try apply throws_pending_throw.
    apply throws_pending_bind_True.
    { repeat first [ apply ensures_bind_True; [| intros ?] | numeric_step ]. }
    { repeat first [ apply throws_pending_calcPercent | numeric_step ]. }
    intros lr. apply throws_pending_bind_True.
    { repeat first [ apply ensures_bind_True; [| intros ?] | numeric_step ]. }
    { repeat first [ apply throws_pending_norm | numeric_step ]. }
    intros lr'. cbv zeta.
    apply throws_pending_bind_True;
      [apply ensures_createSameUnits | apply throws_pending_createSameUnits |].
    intros m. apply throws_pending_ret.
  - unfold CssCalcProductNode_calc.
    eapply throws_pending_bind;
      [apply resolve'_ensures | apply resolve'_throws | intros left0 _].
    eapply throws_pending_bind;
      [apply resolve'_ensures | apply resolve'_throws | intros right0 _].
    destruct left0 as [[] |], right0 as [[] |];
      try apply throws_pending_ret; try apply throws_pending_throw.
    apply throws_pending_bind_True; [repeat numeric_step | repeat numeric_step |].
    intros bm. cbv zeta.
    destruct (negb _); [apply throws_pending_ret |].
    apply throws_pending_bind_True;
      [apply ensures_createSameUnits | apply throws_pending_createSameUnits |].
    intros m. apply throws_pending_ret.
Qed.

End Calc_throws.

Lemma throws_pending_resolve (fuel : nat) (context : CssContext) (this : CssNode) :
  throws_pending (resolve fuel context this).
Proof.
  revert this. induction fuel as [| fuel IH]; intros this; simpl.
  - apply throws_pending_out_of_fuel.
  - destruct (isConst this); [apply throws_pending_ret |].
    apply throws_pending_calc; [apply ensures_resolve | exact IH].
Qed.

(** X3. The dimension stack discipline of [resolve], for a node of any
    class. When the resolution returns, the stack is as it was and the calls
    made hold as many [pushDimension] as [popDimension]. When it throws, no
    [popDimension] makes up for the error: the stack is the old one under
    the tags pushed and not yet popped, as many as the pushes made exceed the
    pops. *)
Theorem resolve_dimension_discipline (fuel : nat) (context : CssContext)
    (this : CssNode) (s : State) :
  (forall (r : option CssNode) (s' : State),
     resolve fuel context this s = Ret r s' ->
     dimStack s' = dimStack s /\
     exists made : list ContextCall,
       calls s' = made ++ calls s /\
       count_pushDimension made = count_popDimension made) /\
  (forall (message : string) (s' : State),
     resolve fuel context this s = Throw message s' ->
     exists (tags : list (option string)) (made : list ContextCall),
       dimStack s' = tags ++ dimStack s /\
       calls s' = made ++ calls s /\
       count_pushDimension made = count_popDimension made + length tags).
Proof.
  split.
  - intros r s' H. exact (proj1 (ensures_resolve _ _ _ _ _ _ H)).
  - intros message s' H. exact (throws_pending_resolve _ _ _ _ _ _ H).
Qed.

Lemma resolve_dimension_discipline_witness :
  exists (tags : list (option string)) (made : list ContextCall),
    dimStack {| dimStack := [Some "h"; Some "w"]; calls := [Call_pushDimension (Some "h")];
                nextOid := 100 |}
      = tags ++ dimStack example_state /\
    calls {| dimStack := [Some "h"; Some "w"]; calls := [Call_pushDimension (Some "h")];
             nextOid := 100 |}
      = made ++ calls example_state /\
    count_pushDimension made = count_popDimension made + length tags.
Proof.
  exact (proj2 (resolve_dimension_discipline 3 example_context
           (CssFuncNode 1 "translatey"
              [CssCalcSumNode 2 (Numeric (CssLengthNode 3 1 "px"))
                 (Numeric (CssAngleNode 4 1 "deg")) "+"]
              (Some ["h"]))
           example_state)
         "left and right must be the same type" _ eq_refl).
Defined.

(** X4. When every argument of a function call has a dimension and the
    evaluation throws, the error was thrown while an argument was being
    resolved under its dimension: the stack is left strictly larger than it
    was, with that tag (and any pushed deeper) still on it. *)
Theorem CssFuncNode_throw_leaves_dimension (fuel : nat) (context : CssContext)
    (oid : nat) (name_ : string) (args_ : list CssNode) (dims : list string)
    (s : State) (message : string) (s' : State) :
  length args_ <= length dims ->
  calc (resolve fuel context) context (CssFuncNode oid name_ args_ (Some dims)) s
    = Throw message s' ->
  exists (tags : list (option string)) (made : list ContextCall),
    dimStack s' = tags ++ dimStack s /\ tags <> [] /\
    calls s' = made ++ calls s /\
    count_pushDimension made = count_popDimension made + length tags.
Proof.
  intros Hlen H. simpl in H. unfold CssFuncNode_calc in H. unfold bind at 1 in H.
  destruct (CssFuncNode_calc_loop (resolve fuel context) (Some dims) args_ 0 [] s)
    as [r s1 | m1 s1 |] eqn:Hloop; [| | discriminate H].
  - destruct r as [l |]; [| discriminate H]. discriminate H.
  - injection H as <- <-.
    apply (throws_CssFuncNode_calc_loop_strict (resolve fuel context)
             (ensures_resolve fuel context) (throws_pending_resolve fuel context)
             dims args_ 0 [] s m1 s1); [simpl; lia | exact Hloop].
Qed.

Lemma CssFuncNode_throw_leaves_dimension_witness :
  exists (tags : list (option string)) (made : list ContextCall),
    dimStack {| dimStack := [Some "h"; Some "w"]; calls := [Call_pushDimension (Some "h")];
                nextOid := 100 |}
      = tags ++ dimStack example_state /\ tags <> [] /\
    calls {| dimStack := [Some "h"; Some "w"]; calls := [Call_pushDimension (Some "h")];
             nextOid := 100 |}
      = made ++ calls example_state /\
    count_pushDimension made = count_popDimension made + length tags.
Proof.
  exact (CssFuncNode_throw_leaves_dimension 2 example_context 1 "translatey"
           [CssCalcSumNode 2 (Numeric (CssLengthNode 3 1 "px"))
              (Numeric (CssAngleNode 4 1 "deg")) "+"]
           ["h"] example_state
           "left and right must be the same type" _ (le_n 1) eq_refl).
Defined.

(** ** Sums *)

Lemma resolve_CssCalcSumNode (fuel : nat) (context : CssContext) (oid : nat)
    (left_ right_ : CssNode) (op_ : string) :
  resolve (S fuel) context (CssCalcSumNode oid left_ right_ op_) =
  CssCalcSumNode_calc (resolve fuel context) context left_ right_ op_.
Proof. reflexivity. Qed.

(** [CssCalcSumNode.calc] once both sides have resolved to some node. *)
Lemma CssCalcSumNode_calc_resolved (resolve' : CssNode -> M (option CssNode))
    (context : CssContext) (left_ right_ : CssNode) (op_ : string)
    (s s1 s2 : State) (left0 right0 : option CssNode) :
  resolve' left_ s = Ret left0 s1 ->
  resolve' right_ s1 = Ret right0 s2 ->
  CssCalcSumNode_calc resolve' context left_ right_ op_ s =
  match left0, right0 with
  | None, _ | _, None => Ret None s2
  | Some (Numeric left1), Some (Numeric right1) =>
      (lr <- (if negb (String.eqb (type_ left1) (type_ right1)) then
               if instanceof_CssPercentNode left1 then
                 left2 <- calcPercent context right1 (num_ left1);; ret (left2, right1)
               else if instanceof_CssPercentNode right1 then
                 right2 <- calcPercent context left1 (num_ right1);; ret (left1, right2)
               else throw "left and right must be the same type"
             else ret (left1, right1));;
       lr <- (if negb (String.eqb (units_ (fst lr)) (units_ (snd lr))) then
               left3 <- norm context (fst lr);;
               right3 <- norm context (snd lr);;
               ret (left3, right3)
             else ret lr);;
       n <- createSameUnits (fst lr) (num_ (fst lr) + sum_sign op_ * num_ (snd lr));;
       ret (Some (Numeric n))) s2
  | Some _, Some _ => Throw "left and right must be both numerical" s2
  end.
Proof.
  intros Hl Hr. unfold CssCalcSumNode_calc.
  rewrite (bind_Ret _ _ _ _ _ Hl), (bind_Ret _ _ _ _ _ Hr).
  destruct left0 as [[] |], right0 as [[] |]; reflexivity.
Qed.

(** X5. Two numeric operands of the same class and the same units are added
    (subtracted for any op other than ['+']) as they are: the result is a
    fresh node of that class and units, nothing is normalized and the
    context is not called, also for units [norm] could not convert. *)
Theorem CssCalcSumNode_same_units (fuel : nat) (context : CssContext) (oid : nat)
    (left_ right_ : CssNode) (op_ : string) (s s1 s2 : State)
    (left1 right1 : CssNumericNode) :
  resolve fuel context left_ s = Ret (Some (Numeric left1)) s1 ->
  resolve fuel context right_ s1 = Ret (Some (Numeric right1)) s2 ->
  type_ left1 = type_ right1 ->
  units_ left1 = units_ right1 ->
  exists n,
    resolve (S fuel) context (CssCalcSumNode oid left_ right_ op_) s
      = Ret (Some (Numeric n)) (allocated s2) /\
    type_ n = type_ left1 /\ units_ n = toLowerCase (units_ left1) /\
    num_ n = (num_ left1 + sum_sign op_ * num_ right1)%float /\
    numeric_oid n = nextOid s2.
Proof.
  intros Hl Hr Htype Hunits. rewrite resolve_CssCalcSumNode.
  rewrite (CssCalcSumNode_calc_resolved _ _ _ _ _ _ _ _ _ _ Hl Hr).
  assert (Et : String.eqb (type_ left1) (type_ right1) = true)
    by (rewrite Htype; apply String.eqb_refl).
  assert (Eu : String.eqb (units_ left1) (units_ right1) = true)
    by (rewrite Hunits; apply String.eqb_refl).
  rewrite Et. simpl negb. cbv iota.
  unfold bind at 1, ret at 1. simpl fst. simpl snd.
  rewrite Eu. simpl negb. cbv iota.
  unfold bind at 1, ret at 1. simpl fst. simpl snd.
  destruct (createSameUnits_Ret left1 (num_ left1 + sum_sign op_ * num_ right1) s2)
    as (n & Hn & Hprops).
  exists n. split; [| exact Hprops].
  rewrite (bind_Ret _ _ _ _ _ Hn). reflexivity.
Qed.

Lemma CssCalcSumNode_same_units_witness :
  exists n,
    resolve 2 example_context
        (CssCalcSumNode 1 (Numeric (CssLengthNode 2 5 "cm")) (Numeric (CssLengthNode 3 2 "cm")) "-")
        example_state
      = Ret (Some (Numeric n)) (allocated example_state) /\
    type_ n = "LEN" /\ units_ n = "cm" /\ num_ n = 3%float /\ numeric_oid n = 100.
Proof.
  exact (CssCalcSumNode_same_units 1 example_context 1
           (Numeric (CssLengthNode 2 5 "cm")) (Numeric (CssLengthNode 3 2 "cm")) "-"
           example_state example_state example_state
           (CssLengthNode 2 5 "cm") (CssLengthNode 3 2 "cm")
           eq_refl eq_refl eq_refl eq_refl).
Defined.

Lemma calcPercent_length_Ret (context : CssContext) (oid : nat) (num : float)
    (units : string) (percent : float) (s : State) :
  calcPercent context (CssLengthNode oid num units) percent s
    = Ret (CssLengthNode (nextOid s) (percent_side context s * percent / 100) "px")
        (after_calcPercent s).
Proof.
  unfold calcPercent, CssLengthNode_calcPercent, context_getDimension,
    context_getCurrentElementSize, new_CssLengthNode, bind, log, ret, alloc,
    percent_side, after_calcPercent.
  simpl. reflexivity.
Qed.

(** X6. A percent added to a length in [px], on either side: the percent is
    taken of the side of the current element that the dimension on top of
    the stack names (width for ['w'], height for ['h'], otherwise 0), and the
    result is a fresh length in [px]; the context is asked for the dimension
    and the element size, once each. *)
Theorem CssCalcSumNode_px_percent (fuel : nat) (context : CssContext) (oid : nat)
    (left_ right_ : CssNode) (op_ : string) (s s1 s2 : State)
    (lo po : nat) (ln pn : float) :
  (resolve fuel context left_ s = Ret (Some (Numeric (CssLengthNode lo ln "px"))) s1 ->
   resolve fuel context right_ s1 = Ret (Some (Numeric (CssPercentNode po pn))) s2 ->
   resolve (S fuel) context (CssCalcSumNode oid left_ right_ op_) s
     = Ret (Some (Numeric (CssLengthNode (S (nextOid s2))
                             (ln + sum_sign op_ * (percent_side context s2 * pn / 100))
                             "px")))
         (allocated (after_calcPercent s2))) /\
  (resolve fuel context left_ s = Ret (Some (Numeric (CssPercentNode po pn))) s1 ->
   resolve fuel context right_ s1 = Ret (Some (Numeric (CssLengthNode lo ln "px"))) s2 ->
   resolve (S fuel) context (CssCalcSumNode oid left_ right_ op_) s
     = Ret (Some (Numeric (CssLengthNode (S (nextOid s2))
                             (percent_side context s2 * pn / 100 + sum_sign op_ * ln)
                             "px")))
         (allocated (after_calcPercent s2))).
Proof.
  split; intros Hl Hr; rewrite resolve_CssCalcSumNode;
    rewrite (CssCalcSumNode_calc_resolved _ _ _ _ _ _ _ _ _ _ Hl Hr);
    simpl type_; simpl instanceof_CssPercentNode; simpl String.eqb; simpl negb; cbv iota;
    unfold bind at 1; unfold bind at 1;
    rewrite calcPercent_length_Ret; reflexivity.
Qed.

Lemma CssCalcSumNode_px_percent_witness :
  resolve 2 example_context
      (CssCalcSumNode 1 (Numeric (CssPercentNode 2 50)) (Numeric (CssLengthNode 3 30 "px")) "-")
      {| dimStack := [Some "h"]; calls := []; nextOid := 100 |}
    = Ret (Some (Numeric (CssLengthNode 101 20 "px")))
        {| dimStack := [Some "h"];
           calls := [Call_getCurrentElementSize; Call_getDimension];
           nextOid := 102 |}.
Proof.
  exact (proj2 (CssCalcSumNode_px_percent 1 example_context 1
           (Numeric (CssPercentNode 2 50)) (Numeric (CssLengthNode 3 30 "px")) "-"
           {| dimStack := [Some "h"]; calls := []; nextOid := 100 |}
           {| dimStack := [Some "h"]; calls := []; nextOid := 100 |}
           {| dimStack := [Some "h"]; calls := []; nextOid := 100 |}
           3 2 30 50) eq_refl eq_refl).
Defined.

(** [norm] on units the class converts (the numeric unit model again, for
    use in the sums). *)
Lemma norm_supported_Ret (context : CssContext) (this : CssNumericNode) (s : State) :
  supported_units this = true ->
  exists n s',
    norm context this s = Ret n s' /\
    type_ n = type_ this /\
    units_ n = canonical_units this.
Proof.
  intros Hsup.
  destruct this as [oid num | oid num | oid num units | oid num units | oid num units];
    simpl in Hsup; try discriminate;
    apply bool_decide_eq_true in Hsup;
    repeat (apply elem_of_cons in Hsup as [-> | Hsup]);
    try (apply elem_of_nil in Hsup; contradiction);
    do 2 eexists; (split; [lazy -[Math_min Math_max]; reflexivity |]); simpl;
    split; reflexivity.
Qed.

Lemma toLowerCase_canonical_units (n : CssNumericNode) :
  toLowerCase (canonical_units n) = canonical_units n.
Proof. destruct n; reflexivity. Qed.

(** X7. Two operands of the same class whose units differ, both among the
    units the class converts: the left one is normalized, then the right
    one, and the result is a fresh node of the class in its canonical units
    holding the sum (or difference) of the normalized magnitudes. *)
Theorem CssCalcSumNode_mixed_units (fuel : nat) (context : CssContext) (oid : nat)
    (left_ right_ : CssNode) (op_ : string) (s s1 s2 : State)
    (left1 right1 : CssNumericNode) :
  resolve fuel context left_ s = Ret (Some (Numeric left1)) s1 ->
  resolve fuel context right_ s1 = Ret (Some (Numeric right1)) s2 ->
  type_ left1 = type_ right1 ->
  units_ left1 <> units_ right1 ->
  supported_units left1 = true ->
  supported_units right1 = true ->
  exists (left3 right3 n : CssNumericNode) (s3 s4 : State),
    norm context left1 s2 = Ret left3 s3 /\
    norm context right1 s3 = Ret right3 s4 /\
    resolve (S fuel) context (CssCalcSumNode oid left_ right_ op_) s
      = Ret (Some (Numeric n)) (allocated s4) /\
    type_ n = type_ left1 /\ units_ n = canonical_units left1 /\
    num_ n = (num_ left3 + sum_sign op_ * num_ right3)%float.
Proof.
  intros Hl Hr Htype Hunits Hsl Hsr.
  destruct (norm_supported_Ret context left1 s2 Hsl) as (left3 & s3 & Hn3 & Ht3 & Hu3).
  destruct (norm_supported_Ret context right1 s3 Hsr) as (right3 & s4 & Hn4 & Ht4 & Hu4).
  destruct (createSameUnits_Ret left3 (num_ left3 + sum_sign op_ * num_ right3) s4)
    as (n & Hn & Htn & Hun & Hnn & _).
  exists left3, right3, n, s3, s4.
  split; [exact Hn3 |]. split; [exact Hn4 |].
  split; [| split; [congruence | split; [| exact Hnn]]].
  - rewrite resolve_CssCalcSumNode.
    rewrite (CssCalcSumNode_calc_resolved _ _ _ _ _ _ _ _ _ _ Hl Hr).
    assert (Et : String.eqb (type_ left1) (type_ right1) = true)
      by (rewrite Htype; apply String.eqb_refl).
    rewrite Et. simpl negb. cbv iota.
    unfold bind at 1, ret at 1. simpl fst. simpl snd.
    apply String.eqb_neq in Hunits. rewrite Hunits. simpl negb. cbv iota.
    unfold bind at 1. rewrite (bind_Ret _ _ _ _ _ Hn3), (bind_Ret _ _ _ _ _ Hn4).
    unfold ret at 1. simpl fst. simpl snd.
    rewrite (bind_Ret _ _ _ _ _ Hn). reflexivity.
  - rewrite Hun, Hu3. apply toLowerCase_canonical_units.
Qed.

Lemma CssCalcSumNode_mixed_units_witness :
  exists (left3 right3 n : CssNumericNode) (s3 s4 : State),
    norm example_context (CssTimeNode 2 2 "s") example_state = Ret left3 s3 /\
    norm example_context (CssTimeNode 3 500 "ms") s3 = Ret right3 s4 /\
    resolve 2 example_context
        (CssCalcSumNode 1 (Numeric (CssTimeNode 2 2 "s")) (Numeric (CssTimeNode 3 500 "ms")) "+")
        example_state
      = Ret (Some (Numeric n)) (allocated s4) /\
    type_ n = "TME" /\ units_ n = "ms" /\
    num_ n = (num_ left3 + sum_sign "+" * num_ right3)%float.
Proof.
  exact (CssCalcSumNode_mixed_units 1 example_context 1
           (Numeric (CssTimeNode 2 2 "s")) (Numeric (CssTimeNode 3 500 "ms")) "+"
           example_state example_state example_state
           (CssTimeNode 2 2 "s") (CssTimeNode 3 500 "ms")
           eq_refl eq_refl eq_refl ltac:(discriminate) eq_refl eq_refl).
Defined.

(** X8. The errors of a sum whose sides have both resolved to a node. A
    side that is not numeric: "left and right must be both numerical". Two
    numeric sides of different classes, neither a percent: "left and right
    must be the same type". A percent against a number, an angle or a time:
    "cannot calculate percent for" that class. Each is thrown in the state
    the right side left, before anything is normalized or built. *)
Theorem CssCalcSumNode_operand_errors (fuel : nat) (context : CssContext) (oid : nat)
    (left_ right_ : CssNode) (op_ : string) (s s1 s2 : State) (x y : CssNode) :
  resolve fuel context left_ s = Ret (Some x) s1 ->
  resolve fuel context right_ s1 = Ret (Some y) s2 ->
  (instanceof_CssNumericNode x = false \/ instanceof_CssNumericNode y = false ->
   resolve (S fuel) context (CssCalcSumNode oid left_ right_ op_) s
     = Throw "left and right must be both numerical" s2) /\
  (forall l r : CssNumericNode,
     x = Numeric l -> y = Numeric r ->
     type_ l <> type_ r ->
     instanceof_CssPercentNode l = false -> instanceof_CssPercentNode r = false ->
     resolve (S fuel) context (CssCalcSumNode oid left_ right_ op_) s
       = Throw "left and right must be the same type" s2) /\
  (forall l r : CssNumericNode,
     x = Numeric l -> y = Numeric r ->
     instanceof_CssPercentNode l = true ->
     type_ r <> "PRC" -> type_ r <> "LEN" ->
     resolve (S fuel) context (CssCalcSumNode oid left_ right_ op_) s
       = Throw ("cannot calculate percent for " +:+ type_ r) s2) /\
  (forall l r : CssNumericNode,
     x = Numeric l -> y = Numeric r ->
     instanceof_CssPercentNode r = true ->
     type_ l <> "PRC" -> type_ l <> "LEN" ->
     resolve (S fuel) context (CssCalcSumNode oid left_ right_ op_) s
       = Throw ("cannot calculate percent for " +:+ type_ l) s2).
Proof.
  intros Hl Hr. rewrite resolve_CssCalcSumNode.
  rewrite (CssCalcSumNode_calc_resolved _ _ _ _ _ _ _ _ _ _ Hl Hr).
  split; [| split; [| split]].
  - intros [Hx | Hy]; destruct x, y; try discriminate; reflexivity.
  - intros l r -> -> Htype Hpl Hpr.
    apply String.eqb_neq in Htype. rewrite Htype, Hpl, Hpr. reflexivity.
  - intros l r -> -> Hpl Hprc Hlen.
    destruct l; try discriminate Hpl.
    destruct r; simpl in Hprc, Hlen; try congruence; reflexivity.
  - intros l r -> -> Hpr Hprc Hlen.
    destruct r; try discriminate Hpr.
    destruct l; simpl in Hprc, Hlen; try congruence; reflexivity.
Qed.

Lemma CssCalcSumNode_operand_errors_witness :
  resolve 2 example_context
      (CssCalcSumNode 1 (Numeric (CssPercentNode 2 50)) (Numeric (CssAngleNode 3 1 "deg")) "+")
      example_state
    = Throw "cannot calculate percent for ANG" example_state.
Proof.
  exact (proj1 (proj2 (proj2 (CssCalcSumNode_operand_errors 1 example_context 1
           (Numeric (CssPercentNode 2 50)) (Numeric (CssAngleNode 3 1 "deg")) "+"
           example_state example_state example_state
           (Numeric (CssPercentNode 2 50)) (Numeric (CssAngleNode 3 1 "deg"))
           eq_refl eq_refl)))
         (CssPercentNode 2 50) (CssAngleNode 3 1 "deg") eq_refl eq_refl eq_refl
         ltac:(discriminate) ltac:(discriminate)).
Defined.

(** ** Operands that resolve to [null], and the order of evaluation *)

(** X9. Both sides of a sum or a product are resolved before either result
    is looked at. When the left side resolves to [null], the right side is
    resolved all the same: the node resolves to [null] in the state the right
    side leaves, and an error thrown by the right side is thrown by the
    node. A right side that resolves to [null] makes the node [null] too,
    whatever the left side resolved to; nothing is thrown for operands that
    are not numeric then. *)
Theorem calc_operands_null (fuel : nat) (context : CssContext) (oid : nat)
    (left_ right_ : CssNode) (op_ : string) (s s1 : State) :
  (resolve fuel context left_ s = Ret None s1 ->
   forall (r : option CssNode) (s2 : State),
     resolve fuel context right_ s1 = Ret r s2 ->
     resolve (S fuel) context (CssCalcSumNode oid left_ right_ op_) s = Ret None s2 /\
     resolve (S fuel) context (CssCalcProductNode oid left_ right_ op_) s = Ret None s2) /\
  (resolve fuel context left_ s = Ret None s1 ->
   forall (message : string) (s2 : State),
     resolve fuel context right_ s1 = Throw message s2 ->
     resolve (S fuel) context (CssCalcSumNode oid left_ right_ op_) s = Throw message s2 /\
     resolve (S fuel) context (CssCalcProductNode oid left_ right_ op_) s
       = Throw message s2) /\
  (forall (l : option CssNode) (s2 : State),
     resolve fuel context left_ s = Ret l s1 ->
     resolve fuel context right_ s1 = Ret None s2 ->
     resolve (S fuel) context (CssCalcSumNode oid left_ right_ op_) s = Ret None s2 /\
     resolve (S fuel) context (CssCalcProductNode oid left_ right_ op_) s = Ret None s2).
Proof.
  rewrite resolve_CssCalcSumNode, resolve_CssCalcProductNode.
  unfold CssCalcSumNode_calc, CssCalcProductNode_calc.
  split; [| split].
  - intros Hl r s2 Hr.
    rewrite !(bind_Ret _ _ _ _ _ Hl), !(bind_Ret _ _ _ _ _ Hr). split; reflexivity.
  - intros Hl message s2 Hr.
    rewrite !(bind_Ret _ _ _ _ _ Hl), !(bind_Throw _ _ _ _ _ Hr). split; reflexivity.
  - intros l s2 Hl Hr.
    rewrite !(bind_Ret _ _ _ _ _ Hl), !(bind_Ret _ _ _ _ _ Hr).
    destruct l as [[] |]; split; reflexivity.
Qed.

Lemma calc_operands_null_witness :
  resolve 3 example_context
      (CssCalcSumNode 1 (CssVarNode 2 "--a" None)
         (CssCalcSumNode 3 (Numeric (CssLengthNode 4 1 "px"))
            (Numeric (CssAngleNode 5 1 "deg")) "+") "+")
      example_state
    = Throw "left and right must be the same type"
        {| dimStack := [Some "w"]; calls := [Call_getVar "--a"]; nextOid := 100 |} /\
  resolve 3 example_context
      (CssCalcProductNode 1 (CssVarNode 2 "--a" None)
         (CssCalcSumNode 3 (Numeric (CssLengthNode 4 1 "px"))
            (Numeric (CssAngleNode 5 1 "deg")) "+") "+")
      example_state
    = Throw "left and right must be the same type"
        {| dimStack := [Some "w"]; calls := [Call_getVar "--a"]; nextOid := 100 |}.
Proof.
  exact (proj1 (proj2 (calc_operands_null 2 example_context 1
           (CssVarNode 2 "--a" None)
           (CssCalcSumNode 3 (Numeric (CssLengthNode 4 1 "px"))
              (Numeric (CssAngleNode 5 1 "deg")) "+") "+"
           example_state
           {| dimStack := [Some "w"]; calls := [Call_getVar "--a"]; nextOid := 100 |}))
         eq_refl "left and right must be the same type" _ eq_refl).
Defined.

(** ** Division *)

(** X10. A product node whose op is not ['*'] divides. The right side must
    be a [CssNumberNode], also when the left side is one: otherwise
    "denominator must be a number" is thrown. The result is a fresh node of
    the class and units of the left side, whose magnitude is the left
    magnitude times the reciprocal of the right one, as long as that is
    finite. *)
Theorem CssCalcProductNode_division (fuel : nat) (context : CssContext) (oid : nat)
    (left_ right_ : CssNode) (op_ : string) (s s1 s2 : State)
    (left1 right1 : CssNumericNode) :
  op_ <> "*" ->
  resolve fuel context left_ s = Ret (Some (Numeric left1)) s1 ->
  resolve fuel context right_ s1 = Ret (Some (Numeric right1)) s2 ->
  (instanceof_CssNumberNode right1 = false ->
   resolve (S fuel) context (CssCalcProductNode oid left_ right_ op_) s
     = Throw "denominator must be a number" s2) /\
  (instanceof_CssNumberNode right1 = true ->
   isFinite (num_ left1 * (1 / num_ right1)) = true ->
   exists n,
     resolve (S fuel) context (CssCalcProductNode oid left_ right_ op_) s
       = Ret (Some (Numeric n)) (allocated s2) /\
     type_ n = type_ left1 /\ units_ n = toLowerCase (units_ left1) /\
     num_ n = (num_ left1 * (1 / num_ right1))%float /\ numeric_oid n = nextOid s2).
Proof.
  intros Hop Hl Hr. rewrite resolve_CssCalcProductNode.
  rewrite (CssCalcProductNode_calc_numeric _ _ _ _ _ _ _ _ _ Hl Hr).
  unfold product_operands. apply String.eqb_neq in Hop. rewrite Hop.
  split.
  - intros ->. reflexivity.
  - intros -> Hfin. rewrite Hfin.
    destruct (createSameUnits_Ret left1 (num_ left1 * (1 / num_ right1)) s2)
      as (n & Hn & Hprops).
    exists n. split; [| exact Hprops].
    rewrite (bind_Ret _ _ _ _ _ Hn). reflexivity.
Qed.

Lemma CssCalcProductNode_division_witness :
  exists n,
    resolve 2 example_context
        (CssCalcProductNode 1 (Numeric (CssLengthNode 2 49 "px"))
           (Numeric (CssNumberNode 3 49)) "/")
        example_state
      = Ret (Some (Numeric n)) (allocated example_state) /\
    type_ n = "LEN" /\ units_ n = "px" /\
    num_ n = 0x1.fffffffffffffp-1%float /\ numeric_oid n = 100.
Proof.
  exact (proj2 (CssCalcProductNode_division 1 example_context 1
           (Numeric (CssLengthNode 2 49 "px")) (Numeric (CssNumberNode 3 49)) "/"
           example_state example_state example_state
           (CssLengthNode 2 49 "px") (CssNumberNode 3 49)
           ltac:(discriminate) eq_refl eq_refl)
         eq_refl eq_refl).
Defined.

(** X11. Products and quotients take numeric operands only: when both
    sides resolve to a node and one of them is not numeric, "left and right
    must be both numerical" is thrown, whatever the op. *)
Theorem CssCalcProductNode_not_numeric (fuel : nat) (context : CssContext) (oid : nat)
    (left_ right_ : CssNode) (op_ : string) (s s1 s2 : State) (x y : CssNode) :
  resolve fuel context left_ s = Ret (Some x) s1 ->
  resolve fuel context right_ s1 = Ret (Some y) s2 ->
  instanceof_CssNumericNode x = false \/ instanceof_CssNumericNode y = false ->
  resolve (S fuel) context (CssCalcProductNode oid left_ right_ op_) s
    = Throw "left and right must be both numerical" s2.
Proof.
  intros Hl Hr Hnot. rewrite resolve_CssCalcProductNode.
  unfold CssCalcProductNode_calc.
  rewrite (bind_Ret _ _ _ _ _ Hl), (bind_Ret _ _ _ _ _ Hr).
  destruct Hnot as [Hx | Hy]; destruct x, y; try discriminate; reflexivity.
Qed.

Lemma CssCalcProductNode_not_numeric_witness :
  resolve 2 example_context
      (CssCalcProductNode 1 (CssPassthroughNode 2 "red") (Numeric (CssNumberNode 3 2)) "*")
      example_state
    = Throw "left and right must be both numerical" example_state.
Proof.
  exact (CssCalcProductNode_not_numeric 1 example_context 1
           (CssPassthroughNode 2 "red") (Numeric (CssNumberNode 3 2)) "*"
           example_state example_state example_state
           (CssPassthroughNode 2 "red") (Numeric (CssNumberNode 3 2))
           eq_refl eq_refl (or_introl eq_refl)).
Defined.

(** ** Units [norm] does not convert *)

(** X12. [norm] of a length, angle or time in units its class does not
    convert throws "unknown units: " followed by the units, without calling
    the context or building a node; numbers and percents are returned as
    they are. *)
Theorem norm_unconverted_units (context : CssContext) (this : CssNumericNode) (s : State) :
  supported_units this = false ->
  (type_ this = "NUM" \/ type_ this = "PRC" -> norm context this s = Ret this s) /\
  (type_ this <> "NUM" -> type_ this <> "PRC" ->
   norm context this s = Throw ("unknown units: " +:+ units_ this) s).
Proof.
  intros Hsup. split.
  - intros [H | H]; destruct this; try discriminate H; reflexivity.
  - intros Hnum Hprc.
    destruct this as [oid num | oid num | oid num units | oid num units | oid num units];
      simpl in Hnum, Hprc; try congruence; simpl in Hsup;
      apply bool_decide_eq_false in Hsup;
      unfold norm, CssLengthNode_norm, CssAngleNode_norm, CssTimeNode_norm; cbn [units_];
      repeat match goal with
             | |- context [String.eqb units ?u] =>
                 destruct (String.eqb_spec units u) as [-> | _];
                 [exfalso; apply Hsup; set_solver |]
             end;
      reflexivity.
Qed.

Lemma norm_unconverted_units_witness :
  norm example_context (CssAngleNode 7 1 "turn") example_state
    = Throw "unknown units: turn" example_state.
Proof.
  exact (proj2 (norm_unconverted_units example_context (CssAngleNode 7 1 "turn") example_state
                  eq_refl)
         ltac:(discriminate) ltac:(discriminate)).
Defined.

(** ** What [calc] of a concatenation or a function call builds *)

Lemma resolve_const_Ret (fuel : nat) (context : CssContext) (this : CssNode)
    (s s' : State) (r : option CssNode) :
  resolve fuel context this s = Ret r s' ->
  isConst this = true ->
  r = Some this /\ s' = s.
Proof.
  intros H Hconst. destruct fuel as [| fuel]; [discriminate H |].
  simpl in H. rewrite Hconst in H. injection H as <- <-. auto.
Qed.

Lemma resolved_from_resolve (fuel : nat) (context : CssContext) (child r : CssNode)
    (s s' : State) :
  resolve fuel context child s = Ret (Some r) s' -> resolved_from child r.
Proof.
  intros H. split.
  - exact (proj2 (ensures_resolve _ _ _ _ _ _ H)).
  - intros Hconst. destruct (resolve_const_Ret _ _ _ _ _ _ H Hconst) as [[= ->] _].
    reflexivity.
Qed.

Lemma CssConcatNode_calc_loop_shape (fuel : nat) (context : CssContext)
    (rest done resolvedArray l : list CssNode) (s s' : State) :
  Forall2 resolved_from done resolvedArray ->
  CssConcatNode_calc_loop (resolve fuel context) rest resolvedArray s = Ret (Some l) s' ->
  Forall2 resolved_from (done ++ rest) l.
Proof.
  revert done resolvedArray s.
  induction rest as [| node rest IH]; intros done resolvedArray s Hdone H; simpl in H.
  - injection H as <- <-. rewrite app_nil_r. exact Hdone.
  - apply bind_Ret_inv in H as ([r |] & s1 & Hnode & H); [| discriminate H].
    replace (done ++ node :: rest) with ((done ++ [node]) ++ rest)
      by (rewrite <- app_assoc; reflexivity).
    apply (IH (done ++ [node]) (resolvedArray ++ [r]) s1); [| exact H].
    apply Forall2_app; [exact Hdone |].
    constructor; [| constructor]. exact (resolved_from_resolve _ _ _ _ _ _ Hnode).
Qed.

Lemma CssFuncNode_argument_Ret (fuel : nat) (context : CssContext)
    (dimensions_ : option (list string)) (i : nat) (node r : CssNode) (s s' : State) :
  match dimensions_ with
  | Some dims =>
      match dims !! i with
      | Some dim =>
          context_pushDimension (Some dim);;;
          resolved <- resolve fuel context node;;
          context_popDimension;;;
          ret resolved
      | None => resolve fuel context node
      end
  | None => resolve fuel context node
  end s = Ret (Some r) s' ->
  resolved_from node r.
Proof.
  intros H.
  destruct dimensions_ as [dims |];
    [destruct (dims !! i) as [dim |] |];
    try exact (resolved_from_resolve _ _ _ _ _ _ H).
  apply bind_Ret_inv in H as (u & s1 & _ & H).
  apply bind_Ret_inv in H as (r' & s2 & Hnode & H).
  apply bind_Ret_inv in H as (u' & s3 & _ & H).
  injection H as -> <-.
  exact (resolved_from_resolve _ _ _ _ _ _ Hnode).
Qed.

Lemma CssFuncNode_calc_loop_shape (fuel : nat) (context : CssContext)
    (dimensions_ : option (list string)) (rest done resolvedArgs l : list CssNode)
    (i : nat) (s s' : State) :
  Forall2 resolved_from done resolvedArgs ->
  CssFuncNode_calc_loop (resolve fuel context) dimensions_ rest i resolvedArgs s
    = Ret (Some l) s' ->
  Forall2 resolved_from (done ++ rest) l.
Proof.
  revert done resolvedArgs i s.
  induction rest as [| node rest IH]; intros done resolvedArgs i s Hdone H; simpl in H.
  - injection H as <- <-. rewrite app_nil_r. exact Hdone.
  - apply bind_Ret_inv in H as ([r |] & s1 & Hnode & H); [| discriminate H].
    replace (done ++ node :: rest) with ((done ++ [node]) ++ rest)
      by (rewrite <- app_assoc; reflexivity).
    apply (IH (done ++ [node]) (resolvedArgs ++ [r]) (S i) s1); [| exact H].
    apply Forall2_app; [exact Hdone |].
    constructor; [| constructor].
    exact (CssFuncNode_argument_Ret _ _ _ _ _ _ _ _ Hnode).
Qed.

(** X13. When the evaluation of a function call returns a node, it is a
    fresh [CssFuncNode] of the same name with no dimensions, and it has one
    argument for each argument of the call, in order: a constant node, and
    the argument itself (the same object) where the argument was constant. *)
Theorem CssFuncNode_calc_shape (fuel : nat) (context : CssContext) (oid : nat)
    (name_ : string) (args_ : list CssNode) (dimensions_ : option (list string))
    (s s' : State) (out : CssNode) :
  calc (resolve fuel context) context (CssFuncNode oid name_ args_ dimensions_) s
    = Ret (Some out) s' ->
  exists (oid' : nat) (resolvedArgs : list CssNode),
    out = CssFuncNode oid' (toLowerCase name_) resolvedArgs None /\
    nextOid s' = S oid' /\
    Forall2 resolved_from args_ resolvedArgs.
Proof.
  intros H. simpl in H. unfold CssFuncNode_calc in H.
  apply bind_Ret_inv in H as ([l |] & s1 & Hloop & H); [| discriminate H].
  unfold new_CssFuncNode, bind, alloc, ret in H. injection H as <- <-.
  exists (nextOid s1), l. split; [reflexivity |]. split; [reflexivity |].
  exact (CssFuncNode_calc_loop_shape _ _ _ _ [] [] _ _ _ _ (List.Forall2_nil _) Hloop).
Qed.

Lemma CssFuncNode_calc_shape_witness :
  exists (oid' : nat) (resolvedArgs : list CssNode),
    CssFuncNode 101 "rotate" [Numeric (CssAngleNode 100 90 "deg")] None
      = CssFuncNode oid' (toLowerCase "rotate") resolvedArgs None /\
    nextOid {| dimStack := [Some "w"]; calls := []; nextOid := 102 |} = S oid' /\
    Forall2 resolved_from
      [CssCalcNode 2 (CssCalcSumNode 3 (Numeric (CssAngleNode 4 45 "deg"))
                        (Numeric (CssAngleNode 5 45 "deg")) "+")]
      resolvedArgs.
Proof.
  exact (CssFuncNode_calc_shape 3 example_context 1 "rotate"
           [CssCalcNode 2 (CssCalcSumNode 3 (Numeric (CssAngleNode 4 45 "deg"))
                             (Numeric (CssAngleNode 5 45 "deg")) "+")]
           None example_state _ _ eq_refl).
Defined.

(** X14. When the evaluation of a concatenation returns a node, it is a
    fresh [CssConcatNode] with one child for each child of the original, in
    order: a constant node, and the child itself (the same object) where the
    child was constant. *)
Theorem CssConcatNode_calc_shape (fuel : nat) (context : CssContext) (oid : nat)
    (array_ : list CssNode) (s s' : State) (out : CssNode) :
  calc (resolve fuel context) context (CssConcatNode oid array_) s = Ret (Some out) s' ->
  exists (oid' : nat) (resolvedArray : list CssNode),
    out = CssConcatNode oid' resolvedArray /\
    nextOid s' = S oid' /\
    Forall2 resolved_from array_ resolvedArray.
Proof.
  intros H. simpl in H. unfold CssConcatNode_calc in H.
  apply bind_Ret_inv in H as ([l |] & s1 & Hloop & H); [| discriminate H].
  unfold new_CssConcatNode, bind, alloc, ret in H. injection H as <- <-.
  exists (nextOid s1), l. split; [reflexivity |]. split; [reflexivity |].
  exact (CssConcatNode_calc_loop_shape _ _ _ [] [] _ _ _ (List.Forall2_nil _) Hloop).
Qed.

Lemma CssConcatNode_calc_shape_witness :
  exists (oid' : nat) (resolvedArray : list CssNode),
    CssConcatNode 101 [CssPassthroughNode 2 "1s";
                       CssPassthroughNode 100
                         ("url(" +:+ dquote +:+ "https://cdn.example/a.png" +:+ dquote +:+ ")")]
      = CssConcatNode oid' resolvedArray /\
    nextOid {| dimStack := [Some "w"]; calls := [Call_resolveUrl "a.png"]; nextOid := 102 |}
      = S oid' /\
    Forall2 resolved_from [CssPassthroughNode 2 "1s"; CssUrlNode 3 "a.png"] resolvedArray.
Proof.
  exact (CssConcatNode_calc_shape 2 example_context 1
           [CssPassthroughNode 2 "1s"; CssUrlNode 3 "a.png"]
           example_state _ _ eq_refl).
Defined.

(** ** [concat] when the first argument is not a concatenation *)

(** X15. When the first argument [a] of [concat] is not a [CssConcatNode],
    the call returns a new [CssConcatNode] whose children are [a] followed by
    the children of [b], if [b] is a [CssConcatNode], or by [b] itself
    otherwise. Every object the store held before, [a] and [b] and their
    arrays among them, is as it was. *)
Theorem concat_builds_new_node (h : Store) (a b : ref) (oa : Object) :
  h !! a = Some oa ->
  instanceof_CssConcatNode oa = false ->
  (forall (array_b : ref) (ys : list ref),
     h !! b = Some (ConcatNodeObject array_b) ->
     h !! array_b = Some (ArrayObject ys) ->
     exists h',
       concat h a b = Some (h', S (length h)) /\
       is_CssConcatNode_at h' (S (length h)) = true /\
       children h' (S (length h)) = Some ([a] ++ ys) /\
       (forall x, x < length h -> h' !! x = h !! x)) /\
  (forall ob : Object,
     h !! b = Some ob ->
     instanceof_CssConcatNode ob = false ->
     exists h',
       concat h a b = Some (h', S (length h)) /\
       is_CssConcatNode_at h' (S (length h)) = true /\
       children h' (S (length h)) = Some [a; b] /\
       (forall x, x < length h -> h' !! x = h !! x)).
Proof.
  intros Ha Hoa.
  assert (Hb_lt : forall ob, h !! b = Some ob -> b < length h)
    by (intros ob H; eapply lookup_lt_Some; eassumption).
  assert (E1 : length (h ++ [ArrayObject [a]]) = S (length h))
    by (rewrite length_app; simpl; lia).
  assert (E2 : length ((h ++ [ArrayObject [a]]) ++ [ConcatNodeObject (length h)])
               = S (S (length h)))
    by (rewrite !length_app; simpl; lia).
  assert (Hh1 : forall x, x < length h ->
            ((h ++ [ArrayObject [a]]) ++ [ConcatNodeObject (length h)]) !! x = h !! x).
  { intros x Hx. rewrite lookup_app_l by lia. apply lookup_app_l. exact Hx. }
  assert (Hset : ((h ++ [ArrayObject [a]]) ++ [ConcatNodeObject (length h)]) !! S (length h)
                 = Some (ConcatNodeObject (length h))).
  { rewrite lookup_app_r by lia. rewrite E1, Nat.sub_diag. reflexivity. }
  assert (Harr : ((h ++ [ArrayObject [a]]) ++ [ConcatNodeObject (length h)]) !! length h
                 = Some (ArrayObject [a])).
  { rewrite lookup_app_l by lia. rewrite lookup_app_r by lia.
    rewrite Nat.sub_diag. reflexivity. }
  split.
  - intros array_b ys Hb Hys.
    pose proof (Hb_lt _ Hb) as Hblt.
    assert (Hab_lt : array_b < length h) by (eapply lookup_lt_Some; eassumption).
    exists (<[S (length h) := ConcatNodeObject (S (S (length h)))]>
              (((h ++ [ArrayObject [a]]) ++ [ConcatNodeObject (length h)])
               ++ [ArrayObject ([a] ++ ys)])).
    split; [| split; [| split]].
    + unfold concat, get_array_, get_elements, store_new.
      rewrite Ha. cbn [mbind option_bind]. rewrite Hoa. cbn beta iota zeta.
      rewrite !E1, !E2.
      rewrite (Hh1 b) by assumption. rewrite Hb.
      cbn [mbind option_bind instanceof_CssConcatNode].
      rewrite Hset. cbn [mbind option_bind]. rewrite Harr. cbn [mbind option_bind].
      rewrite (Hh1 array_b) by assumption. rewrite Hys. cbn [mbind option_bind].
      reflexivity.
    + unfold is_CssConcatNode_at.
      rewrite list_lookup_insert_eq by (rewrite length_app; simpl; lia). reflexivity.
    + unfold children, get_array_, get_elements.
      rewrite list_lookup_insert_eq by (rewrite length_app; simpl; lia).
      cbn [mbind option_bind].
      rewrite list_lookup_insert_ne by lia.
      rewrite lookup_app_r by lia.
      rewrite E2, Nat.sub_diag. reflexivity.
    + intros x Hx.
      rewrite list_lookup_insert_ne by lia.
      rewrite lookup_app_l by lia.
      apply Hh1. exact Hx.
  - intros ob Hb Hob.
    pose proof (Hb_lt _ Hb) as Hblt.
    exists (<[length h := ArrayObject ([a] ++ [b])]>
              ((h ++ [ArrayObject [a]]) ++ [ConcatNodeObject (length h)])).
    split; [| split; [| split]].
    + unfold concat, get_array_, get_elements, store_new.
      rewrite Ha. cbn [mbind option_bind]. rewrite Hoa. cbn beta iota zeta.
      rewrite !E1.
      rewrite (Hh1 b) by assumption. rewrite Hb.
      cbn [mbind option_bind]. rewrite Hob.
      rewrite Hset. cbn [mbind option_bind]. rewrite Harr. cbn [mbind option_bind].
      reflexivity.
    + unfold is_CssConcatNode_at.
      rewrite list_lookup_insert_ne by lia. rewrite Hset. reflexivity.
    + unfold children, get_array_, get_elements.
      rewrite list_lookup_insert_ne by lia. rewrite Hset. cbn [mbind option_bind].
      rewrite list_lookup_insert_eq by lia.
      reflexivity.
    + intros x Hx.
      rewrite list_lookup_insert_ne by lia. apply Hh1. exact Hx.
Qed.

Lemma concat_builds_new_node_witness :
  exists h',
    concat example_store 2 1 = Some (h', S (length example_store)) /\
    is_CssConcatNode_at h' (S (length example_store)) = true /\
    children h' (S (length example_store)) = Some ([2] ++ [2]) /\
    (forall x, x < length example_store -> h' !! x = example_store !! x).
Proof.
  exact (proj1 (concat_builds_new_node example_store 2 1 OtherNodeObject eq_refl eq_refl)
           0 [2] eq_refl eq_refl).
Defined.

(** ** The array given to the constructor *)

(** X16. The constructor keeps the array it is given, so [concat] can reach
    it. After [new CssConcatNode(array)], [concat] of the new node with a
    node that is not a [CssConcatNode] pushes that node onto the given array
    itself; [concat] with a [CssConcatNode] leaves the given array as it was
    and gives the new node another array. In both cases the new node is the
    one returned. *)
Theorem concat_after_constructor (h : Store) (array b : ref) (xs : list ref) :
  h !! array = Some (ArrayObject xs) ->
  let '(h1, node) := store_new_CssConcatNode h (Some array) in
  (forall ob : Object,
     h !! b = Some ob ->
     instanceof_CssConcatNode ob = false ->
     exists h2,
       concat h1 node b = Some (h2, node) /\
       h2 !! array = Some (ArrayObject (xs ++ [b])) /\
       children h2 node = Some (xs ++ [b])) /\
  (forall (array_b : ref) (ys : list ref),
     h !! b = Some (ConcatNodeObject array_b) ->
     h !! array_b = Some (ArrayObject ys) ->
     exists h2,
       concat h1 node b = Some (h2, node) /\
       h2 !! array = Some (ArrayObject xs) /\
       children h2 node = Some (xs ++ ys)).
Proof.
  intros Harray. unfold store_new_CssConcatNode, store_new.
  assert (Halt : array < length h) by (eapply lookup_lt_Some; eassumption).
  assert (E1 : length (h ++ [ConcatNodeObject array]) = S (length h))
    by (rewrite length_app; simpl; lia).
  assert (Hnode : (h ++ [ConcatNodeObject array]) !! length h = Some (ConcatNodeObject array)).
  { rewrite lookup_app_r by lia. rewrite Nat.sub_diag. reflexivity. }
  assert (Hold : forall x, x < length h -> (h ++ [ConcatNodeObject array]) !! x = h !! x)
    by (intros x Hx; apply lookup_app_l; exact Hx).
  split.
  - intros ob Hb Hob.
    assert (Hblt : b < length h) by (eapply lookup_lt_Some; eassumption).
    exists (<[array := ArrayObject (xs ++ [b])]> (h ++ [ConcatNodeObject array])).
    split; [| split].
    + unfold concat, get_array_, get_elements.
      rewrite Hnode. cbn [mbind option_bind instanceof_CssConcatNode]. cbn beta iota zeta.
      rewrite (Hold b) by assumption. rewrite Hb. cbn [mbind option_bind]. rewrite Hob.
      rewrite Hnode. cbn [mbind option_bind].
      rewrite (Hold array) by assumption. rewrite Harray. cbn [mbind option_bind].
      reflexivity.
    + apply list_lookup_insert_eq. lia.
    + unfold children, get_array_, get_elements.
      rewrite list_lookup_insert_ne by lia. rewrite Hnode. cbn [mbind option_bind].
      rewrite list_lookup_insert_eq by lia. reflexivity.
  - intros array_b ys Hb Hys.
    assert (Hblt : b < length h) by (eapply lookup_lt_Some; eassumption).
    assert (Hablt : array_b < length h) by (eapply lookup_lt_Some; eassumption).
    exists (<[length h := ConcatNodeObject (S (length h))]>
              ((h ++ [ConcatNodeObject array]) ++ [ArrayObject (xs ++ ys)])).
    split; [| split].
    + unfold concat, get_array_, get_elements, store_new.
      rewrite Hnode. cbn [mbind option_bind instanceof_CssConcatNode]. cbn beta iota zeta.
      rewrite !E1.
      rewrite (Hold b) by assumption. rewrite Hb.
      cbn [mbind option_bind instanceof_CssConcatNode].
      rewrite Hnode. cbn [mbind option_bind].
      rewrite (Hold array) by assumption. rewrite Harray. cbn [mbind option_bind].
      rewrite (Hold array_b) by assumption. rewrite Hys. cbn [mbind option_bind].
      reflexivity.
    + rewrite list_lookup_insert_ne by lia.
      rewrite lookup_app_l by lia.
      rewrite (Hold array) by assumption. exact Harray.
    + unfold children, get_array_, get_elements.
      rewrite list_lookup_insert_eq by (rewrite length_app; simpl; lia).
      cbn [mbind option_bind].
      rewrite list_lookup_insert_ne by lia.
      rewrite lookup_app_r by lia.
      rewrite E1, Nat.sub_diag. reflexivity.
Qed.

Lemma concat_after_constructor_witness :
  exists h2,
    concat (example_store ++ [ConcatNodeObject 0]) 4 3 = Some (h2, 4) /\
    h2 !! 0 = Some (ArrayObject ([2] ++ [3])) /\
    children h2 4 = Some ([2] ++ [3]).
Proof.
  exact (proj1 (concat_after_constructor example_store 0 3 [2] eq_refl)
           OtherNodeObject eq_refl eq_refl).
Defined.

(** ** The translate family *)

Lemma toLowerCase_app (s1 s2 : string) :
  toLowerCase (s1 +:+ s2) = toLowerCase s1 +:+ toLowerCase s2.
Proof. induction s1 as [| c s1 IH]; simpl; [reflexivity |]. rewrite IH. reflexivity. Qed.

Lemma toLowerCase_char_toUpperCase_char (c : ascii) :
  toLowerCase_char (toUpperCase_char c) = toLowerCase_char c.
Proof. destruct c as [[] [] [] [] [] [] [] []]; reflexivity. Qed.

Lemma toLowerCase_toUpperCase (s : string) : toLowerCase (toUpperCase s) = toLowerCase s.
Proof.
  induction s as [| c s IH]; simpl; [reflexivity |].
  rewrite toLowerCase_char_toUpperCase_char, IH. reflexivity.
Qed.

(** X17. For a suffix of ASCII characters, [new CssTranslateNode(suffix,
    args)] builds a function call named [translate] followed by the suffix in
    lower case (the upper-casing of the constructor is undone by the
    lower-casing of [CssFuncNode]). Its dimensions are decided by the suffix
    as written: [w, h] for the empty suffix, [w], [h], [z] for [x], [y], [z],
    [w, h, z] for [3d], and none for any other suffix, an upper-case [X]
    included. *)
Theorem new_CssTranslateNode_name_and_dimensions (suffix : string) (args : list CssNode)
    (s : State) :
  is_ascii_string suffix = true ->
  exists dimensions_ : option (list string),
    new_CssTranslateNode suffix args s
      = Ret (CssFuncNode (nextOid s) ("translate" +:+ toLowerCase suffix) args dimensions_)
          (allocated s) /\
    (suffix = EmptyString -> dimensions_ = Some ["w"; "h"]) /\
    (suffix = "x" -> dimensions_ = Some ["w"]) /\
    (suffix = "y" -> dimensions_ = Some ["h"]) /\
    (suffix = "z" -> dimensions_ = Some ["z"]) /\
    (suffix = "3d" -> dimensions_ = Some ["w"; "h"; "z"]) /\
    (suffix ∉ [EmptyString; "x"; "y"; "z"; "3d"] -> dimensions_ = None).
Proof.
  intros _. eexists. split.
  - unfold new_CssTranslateNode, new_CssFuncNode, bind, alloc, ret, allocated.
    rewrite toLowerCase_app, toLowerCase_toUpperCase. reflexivity.
  - repeat split; try (intros ->; reflexivity).
    intros Hnot.
    repeat match goal with
           | |- context [String.eqb suffix ?u] =>
               destruct (String.eqb_spec suffix u) as [-> | _];
               [exfalso; apply Hnot; set_solver |]
           end.
    reflexivity.
Qed.

Lemma upper_case_X_is_no_suffix :
  "X" ∉ [EmptyString; "x"; "y"; "z"; "3d"].
Proof.
  intros H.
  repeat (apply elem_of_cons in H as [H | H]; [discriminate H |]).
  apply elem_of_nil in H. exact H.
Qed.

Lemma new_CssTranslateNode_name_and_dimensions_witness :
  is_ascii_string "X" = true /\
  exists dimensions_ : option (list string),
    new_CssTranslateNode "X" [Numeric (CssPercentNode 1 50)] example_state
      = Ret (CssFuncNode 100 "translatex" [Numeric (CssPercentNode 1 50)] dimensions_)
          (allocated example_state) /\
    dimensions_ = None.
Proof.
  destruct (new_CssTranslateNode_name_and_dimensions "X"
              [Numeric (CssPercentNode 1 50)] example_state eq_refl)
    as (dimensions_ & Hnew & _ & _ & _ & _ & _ & Hnone).
  split; [reflexivity |].
  exists dimensions_. split; [exact Hnew |].
  exact (Hnone upper_case_X_is_no_suffix).
Defined.

(** ** What the context is asked *)

Lemma only_expected_calls_refl (s : State) : only_expected_calls s s.
Proof. exists []. split; [reflexivity | constructor]. Qed.

Lemma only_expected_calls_trans (s1 s2 s3 : State) :
  only_expected_calls s1 s2 -> only_expected_calls s2 s3 -> only_expected_calls s1 s3.
Proof.
  intros (m1 & Hc1 & H1) (m2 & Hc2 & H2). exists (m2 ++ m1). split.
  - rewrite Hc2, Hc1. apply app_assoc.
  - apply Forall_app. split; assumption.
Qed.

Lemma calls_as_expected_ret {A} (a : A) : calls_as_expected (ret a).
Proof. intros s. apply only_expected_calls_refl. Qed.

Lemma calls_as_expected_throw {A} (message : string) :
  calls_as_expected (@throw A message).
Proof. intros s. apply only_expected_calls_refl. Qed.

Lemma calls_as_expected_out_of_fuel {A} : calls_as_expected (@out_of_fuel A).
Proof. intros s. exact I. Qed.

Lemma calls_as_expected_alloc : calls_as_expected alloc.
Proof. intros s. exists []. split; [reflexivity | constructor]. Qed.

Lemma calls_as_expected_log (call : ContextCall) :
  expected_call call -> calls_as_expected (log call).
Proof.
  intros Hcall s. exists [call]. split; [reflexivity |]. constructor; [exact Hcall | constructor].
Qed.

Lemma calls_as_expected_bind {A B} (c : M A) (k : A -> M B) :
  calls_as_expected c -> (forall a, calls_as_expected (k a)) ->
  calls_as_expected (x <- c;; k x).
Proof.
  intros Hc Hk s. unfold bind. specialize (Hc s).
  destruct (c s) as [a s1 | m s1 |]; [| exact Hc | exact I].
  specialize (Hk a s1).
  destruct (k a s1) as [b s2 | m s2 |]; [| | exact I];
    exact (only_expected_calls_trans _ _ _ Hc Hk).
Qed.

(** A step that changes the dimension stack or reads it: no call is logged. *)
Lemma calls_as_expected_silent {A} (f : State -> A) (g : State -> State) :
  (forall s, calls (g s) = calls s) ->
  calls_as_expected (fun s => Ret (f s) (g s)).
Proof.
  intros Hg s. exists []. split; [apply Hg | constructor].
Qed.

Ltac calls_step :=
  lazymatch goal with
  | |- calls_as_expected (ret _) => apply calls_as_expected_ret
  | |- calls_as_expected (throw _) => apply calls_as_expected_throw
  | |- calls_as_expected out_of_fuel => apply calls_as_expected_out_of_fuel
  | |- calls_as_expected alloc => apply calls_as_expected_alloc
  | |- calls_as_expected (log _) => apply calls_as_expected_log; exact I
  | |- calls_as_expected (bind _ _) => apply calls_as_expected_bind; [| intros ?]
  | |- calls_as_expected (if ?b then _ else _) => destruct b
  | |- calls_as_expected (match ?x with _ => _ end) => destruct x
  | |- calls_as_expected (let _ := _ in _) => cbv zeta
  | |- calls_as_expected (fun s => Ret _ _) =>
      apply (calls_as_expected_silent _ _); intros ?; reflexivity
  end.

Lemma calls_as_expected_createSameUnits (this : CssNumericNode) (num : float) :
  calls_as_expected (createSameUnits this num).
Proof.
  unfold createSameUnits, new_CssNumberNode, new_CssPercentNode, new_CssLengthNode,
    new_CssAngleNode, new_CssTimeNode.
  repeat calls_step.
Qed.

Lemma calls_as_expected_norm (context : CssContext) (this : CssNumericNode) :
  calls_as_expected (norm context this).
Proof.
  unfold norm, CssLengthNode_norm, CssAngleNode_norm, CssTimeNode_norm,
    context_getCurrentFontSize, context_getRootFontSize, context_getViewportSize,
    new_CssLengthNode, new_CssAngleNode, new_CssTimeNode.
  repeat calls_step.
Qed.

Lemma calls_as_expected_calcPercent (context : CssContext) (this : CssNumericNode)
    (percent : float) :
  calls_as_expected (calcPercent context this percent).
Proof.
  unfold calcPercent, CssLengthNode_calcPercent, context_getDimension,
    context_getCurrentElementSize, new_CssLengthNode.
  repeat calls_step.
Qed.

Section Calc_calls.

Variable resolve' : CssNode -> M (option CssNode).
Variable context : CssContext.
Hypothesis resolve'_calls : forall node, calls_as_expected (resolve' node).

Ltac calc_calls_step :=
  first
    [ apply resolve'_calls
    | apply calls_as_expected_calcPercent
    | apply calls_as_expected_norm
    | apply calls_as_expected_createSameUnits
    | calls_step ].

Lemma calls_as_expected_CssConcatNode_calc_loop (rest resolvedArray : list CssNode) :
  calls_as_expected (CssConcatNode_calc_loop resolve' rest resolvedArray).
Proof.
  revert resolvedArray. induction rest as [| node rest IH]; intros resolvedArray; simpl.
  - apply calls_as_expected_ret.
  - apply calls_as_expected_bind; [apply resolve'_calls |].
    intros [r |]; [apply IH | apply calls_as_expected_ret].
Qed.

Lemma calls_as_expected_CssFuncNode_calc_loop (dimensions_ : option (list string))
    (rest : list CssNode) (i : nat) (resolvedArgs : list CssNode) :
  calls_as_expected (CssFuncNode_calc_loop resolve' dimensions_ rest i resolvedArgs).
Proof.
  revert i resolvedArgs.
  induction rest as [| node rest IH]; intros i resolvedArgs; simpl.
  - apply calls_as_expected_ret.
  - apply calls_as_expected_bind.
    + unfold context_pushDimension, context_popDimension.
      destruct dimensions_ as [dims |]; [| apply resolve'_calls].
      destruct (dims !! i); repeat calc_calls_step.
    + intros [r |]; [apply IH | apply calls_as_expected_ret].
Qed.

(** [calc] of a node that is not constant: the [url()] it may resolve is
    neither empty nor final. *)
Lemma calls_as_expected_calc (this : CssNode) :
  isConst this = false -> calls_as_expected (calc resolve' context this).
Proof.
  intros Hnot.
  destruct this as [oid css_ | oid array_ | oid url_ | n | oid name_ args_ dimensions_
                   | oid varName_ def_ | oid expr_ | oid left_ right_ op_
                   | oid left_ right_ op_]; simpl.
  - apply calls_as_expected_ret.
  - unfold CssConcatNode_calc, new_CssConcatNode.
    apply calls_as_expected_bind; [apply calls_as_expected_CssConcatNode_calc_loop |].
    intros [l |]; repeat calls_step.
  - unfold CssUrlNode_calc, context_resolveUrl, new_CssPassthroughNode.
    apply calls_as_expected_bind; [| intros url; repeat calls_step].
    apply calls_as_expected_bind; [| intros ?; apply calls_as_expected_ret].
    apply calls_as_expected_log. exact Hnot.
  - apply calls_as_expected_ret.
  - unfold CssFuncNode_calc, new_CssFuncNode.
    apply calls_as_expected_bind; [apply calls_as_expected_CssFuncNode_calc_loop |].
    intros [l |]; repeat calls_step.
  - unfold CssVarNode_calc, context_getVar.
    apply calls_as_expected_bind; [repeat calls_step |].
    intros [v |]; [apply resolve'_calls |].
    destruct def_ as [d |]; [apply resolve'_calls | apply calls_as_expected_ret].
  - apply resolve'_calls.
  - unfold CssCalcSumNode_calc.
    apply calls_as_expected_bind; [apply resolve'_calls | intros left0].
    apply calls_as_expected_bind; [apply resolve'_calls | intros right0].
    destruct left0 as [[] |], right0 as [[] |];
      try apply calls_as_expected_ret; try apply calls_as_expected_throw.
    repeat calc_calls_step.
  - unfold CssCalcProductNode_calc.
    apply calls_as_expected_bind; [apply resolve'_calls | intros left0].
    apply calls_as_expected_bind; [apply resolve'_calls | intros right0].
    destruct left0 as [[] |], right0 as [[] |];
      try apply calls_as_expected_ret; try apply calls_as_expected_throw.
    repeat calc_calls_step.
Qed.

End Calc_calls.

Lemma calls_as_expected_resolve (fuel : nat) (context : CssContext) (this : CssNode) :
  calls_as_expected (resolve fuel context this).
Proof.
  revert this. induction fuel as [| fuel IH]; intros this; simpl.
  - apply calls_as_expected_out_of_fuel.
  - destruct (isConst this) eqn:Hconst; [apply calls_as_expected_ret |].
    apply calls_as_expected_calc; [exact IH | exact Hconst].
Qed.

(** X18. A resolution never asks the context to resolve a url that is empty
    or final (one that begins with [data:] or [https:], in any letter case),
    at any depth of the tree or of the values of the variables it meets,
    whether the resolution returns or throws. *)
Theorem resolve_never_resolves_final_url (fuel : nat) (context : CssContext)
    (this : CssNode) (s s' : State) :
  (exists r, resolve fuel context this s = Ret r s') \/
  (exists message, resolve fuel context this s = Throw message s') ->
  exists made : list ContextCall,
    calls s' = made ++ calls s /\
    forall url : string,
      Call_resolveUrl url ∈ made ->
      url <> EmptyString /\ FINAL_URL_RE_test url = false.
Proof.
  intros H.
  pose proof (calls_as_expected_resolve fuel context this s) as Hcalls.
  assert (Hexp : only_expected_calls s s').
  { destruct H as [[r H] | [message H]]; rewrite H in Hcalls; exact Hcalls. }
  destruct Hexp as (made & Hmade & Hall).
  exists made. split; [exact Hmade |].
  intros url Hin. rewrite Forall_forall in Hall. specialize (Hall _ Hin). simpl in Hall.
  apply orb_false_elim in Hall as [Hempty Hfinal].
  split; [| exact Hfinal].
  intros ->. discriminate Hempty.
Qed.

Lemma resolve_never_resolves_final_url_witness :
  exists made : list ContextCall,
    calls {| dimStack := [Some "w"]; calls := [Call_resolveUrl "a.png"]; nextOid := 102 |}
      = made ++ calls example_state /\
    forall url : string,
      Call_resolveUrl url ∈ made ->
      url <> EmptyString /\ FINAL_URL_RE_test url = false.
Proof.
  exact (resolve_never_resolves_final_url 2 example_context
           (CssConcatNode 1 [CssUrlNode 2 "HTTPS://example.com/b.png"; CssUrlNode 3 "a.png"])
           example_state _
           (or_introl (ex_intro _ _ eq_refl))).
Defined.

(** ** Units and names stay in lower case *)

Lemma is_lower_case_toLowerCase (s : string) : is_lower_case (toLowerCase s) = true.
Proof. unfold is_lower_case. rewrite toLowerCase_idempotent. apply String.eqb_refl. Qed.

Lemma ensures_createSameUnits_lower (this : CssNumericNode) (num : float) :
  ensures (createSameUnits this num) (fun n => is_lower_case (units_ n) = true).
Proof.
  unfold createSameUnits, new_CssNumberNode, new_CssPercentNode, new_CssLengthNode,
    new_CssAngleNode, new_CssTimeNode.
  destruct this; ensures_auto; solve [reflexivity | apply is_lower_case_toLowerCase].
Qed.

Lemma ensures_context_getVar (context : CssContext) (varName : string) :
  ensures (context_getVar context varName) (fun r => r = getVar context varName).
Proof.
  unfold context_getVar. ensures_auto. reflexivity.
Qed.

Section Calc_lower_case.

Variable resolve' : CssNode -> M (option CssNode).
Variable context : CssContext.
Hypothesis resolve'_lower :
  forall node, lower_cased node = true -> ensures (resolve' node) null_or_lower_cased.
Hypothesis context_lower :
  forall (varName : string) (v : CssNode),
    getVar context varName = Some v -> lower_cased v = true.

Lemma ensures_CssConcatNode_calc_loop_lower (rest resolvedArray : list CssNode) :
  forallb lower_cased rest = true ->
  forallb lower_cased resolvedArray = true ->
  ensures (CssConcatNode_calc_loop resolve' rest resolvedArray)
    (fun r => match r with Some l => forallb lower_cased l = true | None => True end).
Proof.
  revert resolvedArray.
  induction rest as [| node rest IH]; intros resolvedArray Hrest Hacc; simpl.
  - apply ensures_ret. exact Hacc.
  - simpl in Hrest. apply andb_prop in Hrest as [Hnode Hrest].
    eapply ensures_bind; [apply resolve'_lower; exact Hnode |].
    intros [r |] Hr; simpl in Hr.
    + apply IH; [exact Hrest |]. rewrite forallb_app, Hacc. simpl. rewrite Hr. reflexivity.
    + apply ensures_ret. exact I.
Qed.

Lemma ensures_CssFuncNode_calc_loop_lower (dimensions_ : option (list string))
    (rest : list CssNode) (i : nat) (resolvedArgs : list CssNode) :
  forallb lower_cased rest = true ->
  forallb lower_cased resolvedArgs = true ->
  ensures (CssFuncNode_calc_loop resolve' dimensions_ rest i resolvedArgs)
    (fun r => match r with Some l => forallb lower_cased l = true | None => True end).
Proof.
  revert i resolvedArgs.
  induction rest as [| node rest IH]; intros i resolvedArgs Hrest Hacc; simpl.
  - apply ensures_ret. exact Hacc.
  - simpl in Hrest. apply andb_prop in Hrest as [Hnode Hrest].
    eapply ensures_bind with (P := null_or_lower_cased).
    + destruct dimensions_ as [dims |]; [| apply resolve'_lower; exact Hnode].
      destruct (dims !! i) as [dim |]; [| apply resolve'_lower; exact Hnode].
      apply ensures_push_pop. apply resolve'_lower. exact Hnode.
    + intros [r |] Hr; simpl in Hr.
      * apply IH; [exact Hrest |].
        rewrite forallb_app, Hacc. simpl. rewrite Hr. reflexivity.
      * apply ensures_ret. exact I.
Qed.

Lemma ensures_calc_lower (this : CssNode) :
  lower_cased this = true -> ensures (calc resolve' context this) null_or_lower_cased.
Proof.
  intros Hthis.
  destruct this as [oid css_ | oid array_ | oid url_ | n | oid name_ args_ dimensions_
                   | oid varName_ def_ | oid expr_ | oid left_ right_ op_
                   | oid left_ right_ op_]; simpl in Hthis |- *.
  - apply ensures_ret. reflexivity.
  - unfold CssConcatNode_calc, new_CssConcatNode.
    eapply ensures_bind;
      [apply ensures_CssConcatNode_calc_loop_lower; [exact Hthis | reflexivity] |].
    intros [l |] Hl; [| apply ensures_ret; exact I].
    apply ensures_bind with (P := fun n => lower_cased n = true).
    + ensures_auto. exact Hl.
    + intros n Hn. apply ensures_ret. exact Hn.
  - unfold CssUrlNode_calc, context_resolveUrl, new_CssPassthroughNode.
    apply ensures_bind_True; [ensures_auto |]. intros url.
    apply ensures_bind with (P := fun n => lower_cased n = true).
    + ensures_auto. reflexivity.
    + intros n Hn. apply ensures_ret. exact Hn.
  - apply ensures_ret. exact Hthis.
  - apply andb_prop in Hthis as [_ Hargs].
    unfold CssFuncNode_calc, new_CssFuncNode.
    eapply ensures_bind;
      [apply ensures_CssFuncNode_calc_loop_lower; [exact Hargs | reflexivity] |].
    intros [l |] Hl; [| apply ensures_ret; exact I].
    apply ensures_bind with (P := fun n => lower_cased n = true).
    + ensures_auto. simpl. rewrite is_lower_case_toLowerCase. exact Hl.
    + intros n Hn. apply ensures_ret. exact Hn.
  - unfold CssVarNode_calc.
    eapply ensures_bind; [apply ensures_context_getVar |].
    intros [v |] Hv.
    + apply resolve'_lower. apply (context_lower varName_). symmetry. exact Hv.
    + destruct def_ as [d |]; [apply resolve'_lower; exact Hthis | apply ensures_ret; exact I].
  - apply resolve'_lower. exact Hthis.
  - apply andb_prop in Hthis as [Hleft Hright].
    unfold CssCalcSumNode_calc.
    eapply ensures_bind; [apply resolve'_lower; exact Hleft |]. intros left0 _.
    eapply ensures_bind; [apply resolve'_lower; exact Hright |]. intros right0 _.
    destruct left0 as [[] |], right0 as [[] |];
      try (apply ensures_ret; exact I); try apply ensures_throw.
    apply ensures_bind_True.
    { repeat first [ apply ensures_calcPercent
                   | apply ensures_bind_True; [| intros ?]
                   | ensures_step ]. }
    intros lr. apply ensures_bind_True.
    { repeat first [ apply ensures_norm
                   | apply ensures_bind_True; [| intros ?]
                   | ensures_step ]. }
    intros lr'. cbv zeta.
    eapply ensures_bind; [apply ensures_createSameUnits_lower |].
    intros m Hm. apply ensures_ret. exact Hm.
  - apply andb_prop in Hthis as [Hleft Hright].
    unfold CssCalcProductNode_calc.
    eapply ensures_bind; [apply resolve'_lower; exact Hleft |]. intros left0 _.
    eapply ensures_bind; [apply resolve'_lower; exact Hright |]. intros right0 _.
    destruct left0 as [[] |], right0 as [[] |];
      try (apply ensures_ret; exact I); try apply ensures_throw.
    apply ensures_bind_True; [ensures_auto |].
    intros bm. cbv zeta.
    destruct (negb _); [apply ensures_ret; exact I |].
    eapply ensures_bind; [apply ensures_createSameUnits_lower |].
    intros m Hm. apply ensures_ret. exact Hm.
Qed.

End Calc_lower_case.

(** X19. Units and function names stay in lower case. When they are in lower
    case throughout the tree and throughout the values the context has for
    variables, as the constructors store them, they are in lower case
    throughout the node a resolution returns: every node [calc] builds goes
    through a constructor, which lower-cases again. *)
Theorem resolve_keeps_lower_case (fuel : nat) (context : CssContext) (this out : CssNode)
    (s s' : State) :
  (forall (varName : string) (v : CssNode),
     getVar context varName = Some v -> lower_cased v = true) ->
  lower_cased this = true ->
  resolve fuel context this s = Ret (Some out) s' ->
  lower_cased out = true.
Proof.
  intros Hctx Hthis H.
  assert (Hens : forall fuel0 node,
            lower_cased node = true ->
            ensures (resolve fuel0 context node) null_or_lower_cased).
  { induction fuel0 as [| fuel0 IH]; intros node Hnode; simpl.
    - apply ensures_out_of_fuel.
    - destruct (isConst node); [apply ensures_ret; exact Hnode |].
      apply ensures_calc_lower; [exact IH | exact Hctx | exact Hnode]. }
  exact (proj2 (Hens fuel this Hthis _ _ _ H)).
Qed.

Lemma example_context_with_var_lower_cased (varName : string) (v : CssNode) :
  getVar example_context_with_var varName = Some v -> lower_cased v = true.
Proof.
  simpl. destruct (String.eqb varName "--angle"); intros [= <-]. reflexivity.
Qed.

Lemma resolve_keeps_lower_case_witness :
  lower_cased (CssFuncNode 101 "rotate" [Numeric (CssAngleNode 100 90 "deg")] None) = true.
Proof.
  exact (resolve_keeps_lower_case 5 example_context_with_var
           (CssFuncNode 1 "rotate"
              [CssCalcNode 2 (CssCalcSumNode 3 (CssVarNode 4 "--angle" None)
                                (Numeric (CssAngleNode 5 45 "deg")) "+")]
              None)
           (CssFuncNode 101 "rotate" [Numeric (CssAngleNode 100 90 "deg")] None)
           example_state
           {| dimStack := [Some "w"]; calls := [Call_getVar "--angle"]; nextOid := 102 |}
           example_context_with_var_lower_cased eq_refl eq_refl).
Defined.

(** ** The CSS of a concatenation *)

Lemma string_app_assoc (s1 s2 s3 : string) : (s1 +:+ s2) +:+ s3 = s1 +:+ s2 +:+ s3.
Proof.
  induction s1 as [| c s1 IH]; [reflexivity |].
  change (String c ((s1 +:+ s2) +:+ s3) = String c (s1 +:+ s2 +:+ s3)).
  rewrite IH. reflexivity.
Qed.

Lemma join_app (sep : string) (l1 l2 : list string) :
  l1 <> [] -> l2 <> [] ->
  join sep (l1 ++ l2) = join sep l1 +:+ sep +:+ join sep l2.
Proof.
  intros H1 H2. induction l1 as [| x l1 IH]; [contradiction |].
  destruct l1 as [| y l1].
  - destruct l2 as [| z l2]; [contradiction |]. reflexivity.
  - change (join sep ((x :: y :: l1) ++ l2))
      with (x +:+ sep +:+ join sep ((y :: l1) ++ l2)).
    rewrite IH by discriminate.
    change (join sep (x :: y :: l1)) with (x +:+ sep +:+ join sep (y :: l1)).
    rewrite !string_app_assoc. reflexivity.
Qed.

(** X20. The CSS of a concatenation is the CSS of its children separated by
    single spaces: nothing for no child, the CSS of the child for one, and
    for children in two non-empty runs the CSS of the two runs with a space
    between them. Object stamps play no role. *)
Theorem css_CssConcatNode_app (numToString : float -> string) (o o1 o2 : nat)
    (child : CssNode) (array1 array2 : list CssNode) :
  css numToString (CssConcatNode o []) = EmptyString /\
  css numToString (CssConcatNode o [child]) = css numToString child /\
  (array1 <> [] -> array2 <> [] ->
   css numToString (CssConcatNode o (array1 ++ array2))
     = css numToString (CssConcatNode o1 array1) +:+ " " +:+
       css numToString (CssConcatNode o2 array2)).
Proof.
  split; [reflexivity |]. split; [reflexivity |].
  intros H1 H2. simpl. rewrite map_app.
  apply join_app; intros Hnil; apply map_eq_nil in Hnil; contradiction.
Qed.

Lemma css_CssConcatNode_app_witness :
  css (fun _ => "1") (CssConcatNode 1 ([CssPassthroughNode 2 "ease"; CssPassthroughNode 3 "in"]
                                        ++ [CssPassthroughNode 4 "out"]))
    = css (fun _ => "1") (CssConcatNode 5 [CssPassthroughNode 2 "ease"; CssPassthroughNode 3 "in"])
      +:+ " " +:+ css (fun _ => "1") (CssConcatNode 6 [CssPassthroughNode 4 "out"]).
Proof.
  exact (proj2 (proj2 (css_CssConcatNode_app (fun _ => "1") 1 5 6 (CssPassthroughNode 2 "ease")
                         [CssPassthroughNode 2 "ease"; CssPassthroughNode 3 "in"]
                         [CssPassthroughNode 4 "out"]))
         ltac:(discriminate) ltac:(discriminate)).
Defined.

(** ** The CSS of a resolved url *)

(** X21. The node a [url()] resolves to serializes as [url("<resolved>")],
    which is the CSS of a [CssUrlNode] of the resolved url whenever that url
    is not empty. When the context answers the empty string the two differ:
    the resolved node reads [url("")], while a [CssUrlNode] of the empty url
    reads as the empty string. *)
Theorem CssUrlNode_css_after_resolve (numToString : float -> string) (fuel : nat)
    (context : CssContext) (oid oid' : nat) (url_ : string) (s s' : State) (out : CssNode) :
  isConst (CssUrlNode oid url_) = false ->
  resolve (S fuel) context (CssUrlNode oid url_) s = Ret (Some out) s' ->
  css numToString out = "url(" +:+ dquote +:+ resolveUrl context url_ +:+ dquote +:+ ")" /\
  (resolveUrl context url_ <> EmptyString ->
   css numToString out = css numToString (CssUrlNode oid' (resolveUrl context url_))) /\
  (resolveUrl context url_ = EmptyString ->
   css numToString out = "url(" +:+ dquote +:+ dquote +:+ ")" /\
   css numToString (CssUrlNode oid' (resolveUrl context url_)) = EmptyString).
Proof.
  intros Hnot H.
  change (resolve (S fuel) context (CssUrlNode oid url_) s)
    with ((if isConst (CssUrlNode oid url_) then ret (Some (CssUrlNode oid url_))
           else calc (resolve fuel context) context (CssUrlNode oid url_)) s) in H.
  rewrite Hnot in H. simpl in H.
  unfold CssUrlNode_calc, context_resolveUrl, new_CssPassthroughNode,
    bind, log, alloc, ret in H.
  injection H as <- <-.
  split; [reflexivity |]. split.
  - intros Hne. simpl. apply String.eqb_neq in Hne. rewrite Hne. reflexivity.
  - intros ->. split; reflexivity.
Qed.

Lemma CssUrlNode_css_after_resolve_witness :
  css (fun _ => "1")
      (CssPassthroughNode 100
         ("url(" +:+ dquote +:+ "https://cdn.example/a.png" +:+ dquote +:+ ")"))
    = css (fun _ => "1") (CssUrlNode 7 "https://cdn.example/a.png").
Proof.
  exact (proj1 (proj2 (CssUrlNode_css_after_resolve (fun _ => "1") 0 example_context 1 7
           "a.png" example_state
           {| dimStack := [Some "w"]; calls := [Call_resolveUrl "a.png"]; nextOid := 101 |}
           (CssPassthroughNode 100
              ("url(" +:+ dquote +:+ "https://cdn.example/a.png" +:+ dquote +:+ ")"))
           eq_refl eq_refl))
         ltac:(discriminate)).
Defined.

(** ** Variables *)

(** X22. How [var()] looks its variable up. The context is asked once. A
    variable the context has a value for resolves as that value does, and
    the default plays no role, whatever it is; a constant value is returned
    as the context's own object. Without a value the node resolves as its
    default does, and to [null] when it has none. *)
Theorem CssVarNode_lookup (fuel : nat) (context : CssContext) (oid : nat)
    (varName_ : string) (def_ : option CssNode) (s : State) :
  (forall v : CssNode,
     getVar context varName_ = Some v ->
     resolve (S fuel) context (CssVarNode oid varName_ def_) s
       = resolve fuel context v
           {| dimStack := dimStack s; calls := Call_getVar varName_ :: calls s;
              nextOid := nextOid s |} /\
     (isConst v = true ->
      resolve (S (S fuel)) context (CssVarNode oid varName_ def_) s
        = Ret (Some v)
            {| dimStack := dimStack s; calls := Call_getVar varName_ :: calls s;
               nextOid := nextOid s |})) /\
  (getVar context varName_ = None ->
   resolve (S fuel) context (CssVarNode oid varName_ def_) s
     = match def_ with
       | Some d =>
           resolve fuel context d
             {| dimStack := dimStack s; calls := Call_getVar varName_ :: calls s;
                nextOid := nextOid s |}
       | None =>
           Ret None
             {| dimStack := dimStack s; calls := Call_getVar varName_ :: calls s;
                nextOid := nextOid s |}
       end).
Proof.
  split.
  - intros v Hv. split.
    + simpl. unfold CssVarNode_calc, context_getVar, bind, log, ret. simpl.
      rewrite Hv. reflexivity.
    + intros Hconst.
      change (resolve (S (S fuel)) context (CssVarNode oid varName_ def_) s)
        with (CssVarNode_calc (resolve (S fuel) context) context varName_ def_ s).
      unfold CssVarNode_calc, context_getVar, bind, log, ret. simpl.
      rewrite Hv, Hconst. reflexivity.
  - intros Hv. simpl. unfold CssVarNode_calc, context_getVar, bind, log, ret. simpl.
    rewrite Hv. destruct def_; reflexivity.
Qed.

Lemma CssVarNode_lookup_witness :
  resolve 2 example_context_with_var
      (CssVarNode 1 "--angle"
         (Some (CssCalcSumNode 2 (Numeric (CssLengthNode 3 1 "px"))
                  (Numeric (CssAngleNode 4 1 "deg")) "+")))
      example_state
    = Ret (Some (Numeric (CssAngleNode 50 45 "deg")))
        {| dimStack := [Some "w"]; calls := [Call_getVar "--angle"]; nextOid := 100 |}.
Proof.
  exact (proj2 (proj1 (CssVarNode_lookup 0 example_context_with_var 1 "--angle"
           (Some (CssCalcSumNode 2 (Numeric (CssLengthNode 3 1 "px"))
                    (Numeric (CssAngleNode 4 1 "deg")) "+"))
           example_state)
           (Numeric (CssAngleNode 50 45 "deg")) eq_refl)
         eq_refl).
Defined.
